(** * geolocation-migration-script: hierarchy validation, extraction,
      resolution and the geo_ref writer

    A shallow embedding of [geolocation-migration-script.py].  The script
    talks to two PostgreSQL databases; the databases are not part of the
    script, so their answers are collected in a record [World] of oracles and
    the script's own effects (printing, opening and closing connections,
    statements sent, the transaction on [geo_ref]) are threaded through a
    small state-and-exit monad. *)

From Stdlib Require Import String Ascii List Bool Arith ZArith Lia DecimalString.
Import ListNotations.
Local Open Scope string_scope.
Local Open Scope list_scope.

(* ===================================================================== *)
(** ** Python values *)
(* ===================================================================== *)

(** A value read from a table, a command-line option or a dictionary slot:
    [None] is Python's [None] (SQL NULL, pandas NA), [Some s] a string. *)
Definition cell := option string.

(** [bool(x)] for an optional string: [None] and the empty string are
    false. *)
Definition truthy (x : cell) : bool :=
  match x with
  | Some s => negb (s =? "")
  | None => false
  end.

(** [any(xs)] *)
Definition any (xs : list bool) : bool := existsb (fun b => b) xs.

(** [all(xs)] *)
Definition all (xs : list bool) : bool := forallb (fun b => b) xs.

(** The text an f-string puts for an optional string ([str(None)] is
    ["None"]). *)
Definition fmt (x : cell) : string :=
  match x with
  | Some s => s
  | None => "None"
  end.

(** A Python [dict] with string keys, in insertion order. *)
Definition dict (V : Type) := list (string * V).

Fixpoint dict_get {V} (d : dict V) (k : string) : option V :=
  match d with
  | [] => None
  | (k', v) :: d' => if k' =? k then Some v else dict_get d' k
  end.

(** [d[k] = v]: overwrite in place, or append a new key. *)
Fixpoint dict_set {V} (d : dict V) (k : string) (v : V) : dict V :=
  match d with
  | [] => [(k, v)]
  | (k', v') :: d' =>
      if k' =? k then (k', v) :: d' else (k', v') :: dict_set d' k v
  end.

(** [k in d] *)
Definition dict_mem {V} (d : dict V) (k : string) : bool :=
  match dict_get d k with Some _ => true | None => false end.

(** [d[k]] for a dictionary of booleans whose keys are all present. *)
Definition getb (d : dict bool) (k : string) : bool :=
  match dict_get d k with Some b => b | None => false end.

(** [x in xs] for a list of strings. *)
Definition mem (x : string) (xs : list string) : bool :=
  existsb (String.eqb x) xs.

(** [sep.join(xs)] *)
Fixpoint join (sep : string) (xs : list string) : string :=
  match xs with
  | [] => ""
  | [x] => x
  | x :: xs' => x ++ sep ++ join sep xs'
  end.

(** The newline character of the triple-quoted SQL templates. *)
Definition nl : string := String (ascii_of_nat 10) "".

(* ===================================================================== *)
(** ** The command line *)
(* ===================================================================== *)

(** The namespace [argparse] returns.  Every option is optional for the
    parser except [--fact-table]; [--port] has a default. *)
Record Args := {
  connection_uri : cell;
  host : cell;
  port : Z;
  database : cell;
  user : cell;
  fact_table : string;
  province_col : cell;
  city_col : cell;
  district_col : cell;
  subdistrict_col : cell;
  province : cell;
  city : cell;
  district : cell;
  subdistrict : cell
}.

(* ===================================================================== *)
(** ** The process: state, exit, printing *)
(* ===================================================================== *)

Inductive conn_status := Open | Closed.

(** A connection object is named by the order in which it was opened. *)
Definition handle := nat.

(** A statement with its bound parameters ([cursor.execute(sql, values)]);
    the parameter list is empty where the script sends text alone. *)
Definition stmt := (string * list cell)%type.

(** What the run has done so far. *)
Record Process := {
  stdout : list string;              (* printed lines, oldest first *)
  conns : list conn_status;          (* every connection opened so far *)
  sent : list (handle * stmt);       (* statements sent, oldest first *)
  geo_ref : list (list cell);        (* committed rows of geo_ref *)
  pending : list (list cell)         (* rows inserted, not yet committed *)
}.

Definition start : Process :=
  {| stdout := []; conns := []; sent := []; geo_ref := []; pending := [] |}.

(** A computation returns normally or leaves through [sys.exit(code)]. *)
Inductive outcome (A : Type) :=
| Ret (a : A)
| Exit (code : Z).
Arguments Ret {A} a.
Arguments Exit {A} code.

Definition M (A : Type) := Process -> outcome A * Process.

Definition ret {A} (a : A) : M A := fun p => (Ret a, p).

Definition bind {A B} (m : M A) (f : A -> M B) : M B :=
  fun p =>
    match m p with
    | (Ret a, p') => f a p'
    | (Exit c, p') => (Exit c, p')
    end.

Definition sys_exit {A} (code : Z) : M A := fun p => (Exit code, p).

Notation "x <- m ;; k" := (bind m (fun x => k))
  (at level 61, m at next level, right associativity).
Notation "m ;;; k" := (bind m (fun _ => k))
  (at level 61, right associativity).

Definition print (line : string) : M unit :=
  fun p =>
    (Ret tt,
     {| stdout := stdout p ++ [line]; conns := conns p; sent := sent p;
        geo_ref := geo_ref p; pending := pending p |}).

(* ===================================================================== *)
(** ** validate_hierarchy *)
(* ===================================================================== *)

Definition has_column (args : Args) : dict bool :=
  [ ("province", truthy (province_col args));
    ("city", truthy (city_col args));
    ("district", truthy (district_col args));
    ("subdistrict", truthy (subdistrict_col args)) ].

Definition has_value (args : Args) : dict bool :=
  [ ("province", truthy (province args));
    ("city", truthy (city args));
    ("district", truthy (district args));
    ("subdistrict", truthy (subdistrict args)) ].

Definition hierarchy : list string :=
  ["province"; "city"; "district"; "subdistrict"].

(** The inner loop over [hierarchy[:i]]: the first upper level with neither
    a column nor a value. *)
Fixpoint first_missing_upper (hc hv : dict bool) (uppers : list string)
  : option string :=
  match uppers with
  | [] => None
  | upper_level :: rest =>
      if negb (getb hc upper_level || getb hv upper_level)
      then Some upper_level
      else first_missing_upper hc hv rest
  end.

(** The outer loop over [enumerate(hierarchy)], from index [i] on: the first
    pair (level, missing upper level) at which the function returns False. *)
Fixpoint first_violation (hc hv : dict bool) (i : nat) (levels : list string)
  : option (string * string) :=
  match levels with
  | [] => None
  | level :: rest =>
      if Nat.eqb i 0 then first_violation hc hv (S i) rest
      else if getb hc level then
        match first_missing_upper hc hv (firstn i hierarchy) with
        | Some upper_level => Some (level, upper_level)
        | None => first_violation hc hv (S i) rest
        end
      else first_violation hc hv (S i) rest
  end.

Definition validate_hierarchy (args : Args) : M bool :=
  let hc := has_column args in
  let hv := has_value args in
  if negb (any (map snd hc ++ map snd hv)) then
    print "Error: You must provide at least one location column or value" ;;;
    ret false
  else if getb hc "province" && negb (any [
      getb hc "city"; getb hc "district"; getb hc "subdistrict";
      getb hv "province"; getb hv "city"; getb hv "district";
      getb hv "subdistrict" ]) then
    ret true
  else if getb hv "province" && getb hc "city" && negb (any [
      getb hc "province"; getb hc "district"; getb hc "subdistrict";
      getb hv "city"; getb hv "district"; getb hv "subdistrict" ]) then
    ret true
  else
    match first_violation hc hv 0 hierarchy with
    | Some (level, upper_level) =>
        print ("Error: " ++ level ++ " column provided but missing "
               ++ upper_level ++ " column or value")%string ;;;
        ret false
    | None => ret true
    end.

(* ===================================================================== *)
(** ** Text of Python values *)
(* ===================================================================== *)

Definition quote1 : ascii := ascii_of_nat 39.      (* ' *)
Definition quote2 : ascii := ascii_of_nat 34.      (* double quote *)
Definition backslash : ascii := ascii_of_nat 92.

Definition has_char (c : ascii) (s : string) : bool :=
  existsb (Ascii.eqb c) (list_ascii_of_string s).

Definition hex_digit (n : nat) : ascii :=
  nth n (list_ascii_of_string "0123456789abcdef") "0"%char.

(** One character inside [repr(s)], for the chosen quote.  Bytes from 128 on
    are taken to belong to printable characters and are kept. *)
Definition repr_char (q c : ascii) : string :=
  let n := nat_of_ascii c in
  if (Ascii.eqb c q || Ascii.eqb c backslash)%bool
  then String backslash (String c "")
  else if Nat.eqb n 9 then String backslash "t"
  else if Nat.eqb n 10 then String backslash "n"
  else if Nat.eqb n 13 then String backslash "r"
  else if (Nat.ltb n 32 || Nat.eqb n 127)%bool
  then String backslash (String "x" (String (hex_digit (n / 16))
         (String (hex_digit (n mod 16)) "")))
  else String c "".

(** [repr(s)] of a string: single quotes, unless the string has a single
    quote and no double quote. *)
Definition repr_str (s : string) : string :=
  let q := if (has_char quote1 s && negb (has_char quote2 s))%bool
           then quote2 else quote1 in
  (String q (String.concat "" (map (repr_char q) (list_ascii_of_string s)))
   ++ String q "")%string.

Definition repr_cell (x : cell) : string :=
  match x with
  | Some s => repr_str s
  | None => "None"
  end.

(** [str(d)] of a dictionary of optional strings. *)
Definition repr_dict (d : dict cell) : string :=
  ("{" ++ join ", " (map (fun kv => repr_str (fst kv) ++ ": "
                                     ++ repr_cell (snd kv)) d) ++ "}")%string.

(** [str(xs)] of a list of optional strings. *)
Definition repr_list (xs : list cell) : string :=
  ("[" ++ join ", " (map repr_cell xs) ++ "]")%string.

(** [str(n)] of a length. *)
Definition str_nat (n : nat) : string :=
  NilZero.string_of_uint (Nat.to_uint n).

(** [s.replace(old, new)] for a one-character [old]. *)
Fixpoint replace (old : ascii) (new : string) (s : string) : string :=
  match s with
  | EmptyString => EmptyString
  | String c s' =>
      if Ascii.eqb c old then (new ++ replace old new s')%string
      else String c (replace old new s')
  end.

(* ===================================================================== *)
(** ** The databases *)
(* ===================================================================== *)

(** What a call into a library gives back: a value, or an exception [e]
    with [str(e)]. *)
Inductive result (A : Type) :=
| Ok (a : A)
| Raise (e : string).
Arguments Ok {A} a.
Arguments Raise {A} e.

(** A [pandas.DataFrame] as its rows in order, each a mapping from column
    name to value in column order. *)
Definition DataFrame := list (dict cell).

Record DbInfo := {
  db_host : cell;
  db_database : cell;
  db_user : cell;
  db_password : string;
  db_port : Z
}.

Inductive conn_params :=
| ByUri (uri : string)
| ByInfo (info : DbInfo).

(** Everything outside the script.  The answer to a statement may depend on
    the statements sent before it ([sent]), as a session does. *)
Record World := {
  environ_MASTER_DB_URI : cell;      (* os.environ.get("MASTER_DB_URI") *)
  getpass : string;                  (* what the user types at the prompt *)
  psycopg2_connect : conn_params -> result unit;
  pd_read_sql : list (handle * stmt) -> string -> result DataFrame;
  (* cursor(); execute(sql); fetchone(); close() on the master *)
  fetchone : list (handle * stmt) -> string -> result (option (list cell));
  (* cursor.execute of DDL or INSERT on the fact/destination connection *)
  execute : list (handle * stmt) -> stmt -> result unit;
  commit : list (handle * stmt) -> result unit
}.

(** *** Primitive steps on the process *)

(** A new connection object, open. *)
Definition open_conn : M handle :=
  fun p =>
    (Ret (length (conns p)),
     {| stdout := stdout p; conns := conns p ++ [Open]; sent := sent p;
        geo_ref := geo_ref p; pending := pending p |}).

Fixpoint set_nth {A} (n : nat) (x : A) (l : list A) : list A :=
  match l, n with
  | [], _ => []
  | _ :: l', O => x :: l'
  | y :: l', S n' => y :: set_nth n' x l'
  end.

(** [conn.close()] *)
Definition close (h : handle) : M unit :=
  fun p =>
    (Ret tt,
     {| stdout := stdout p; conns := set_nth h Closed (conns p);
        sent := sent p; geo_ref := geo_ref p; pending := pending p |}).

(** Record a statement as sent over connection [h]. *)
Definition send (h : handle) (s : stmt) : M unit :=
  fun p =>
    (Ret tt,
     {| stdout := stdout p; conns := conns p; sent := sent p ++ [(h, s)];
        geo_ref := geo_ref p; pending := pending p |}).

(** The statements sent so far. *)
Definition history : M (list (handle * stmt)) := fun p => (Ret (sent p), p).

(** A successful INSERT adds its row to the open transaction. *)
Definition add_pending (values : list cell) : M unit :=
  fun p =>
    (Ret tt,
     {| stdout := stdout p; conns := conns p; sent := sent p;
        geo_ref := geo_ref p; pending := pending p ++ [values] |}).

(** A successful [conn.commit()] makes the transaction's rows permanent. *)
Definition do_commit : M unit :=
  fun p =>
    (Ret tt,
     {| stdout := stdout p; conns := conns p; sent := sent p;
        geo_ref := geo_ref p ++ pending p; pending := [] |}).

(** [conn.rollback()] drops them. *)
Definition rollback : M unit :=
  fun p =>
    (Ret tt,
     {| stdout := stdout p; conns := conns p; sent := sent p;
        geo_ref := geo_ref p; pending := [] |}).

Section Script.

Variable w : World.

(* ===================================================================== *)
(** ** connect_to_db *)
(* ===================================================================== *)

(** With a falsy [connection_uri] and no [db_info], [db_info["host"]] raises
    TypeError, which the handler catches like any connection error. *)
Definition connect_to_db (connection_uri : cell) (db_info : option DbInfo)
  : M handle :=
  let attempt :=
    if truthy connection_uri then psycopg2_connect w (ByUri (fmt connection_uri))
    else match db_info with
         | Some info => psycopg2_connect w (ByInfo info)
         | None => Raise "'NoneType' object is not subscriptable"
         end in
  match attempt with
  | Ok _ => open_conn
  | Raise e =>
      print ("Error connecting to database: " ++ e)%string ;;;
      sys_exit 1%Z
  end.

(* ===================================================================== *)
(** ** fetch_distinct_locations *)
(* ===================================================================== *)

(** [df[name] = value]: the same value on every row. *)
Definition df_assign (df : DataFrame) (name : string) (value : cell)
  : DataFrame :=
  map (fun row => dict_set row name value) df.

(** One of the four blocks "add static value if provided and the column
    does not exist": the frame and [columns] after it. *)
Definition add_static (available_columns : list string) (name : string)
    (value : cell) (acc : DataFrame * list string) : DataFrame * list string :=
  let (df, columns) := acc in
  if (truthy value && negb (mem name available_columns))%bool
  then (df_assign df name value, columns ++ [name])
  else (df, columns).

Definition fetch_distinct_locations (conn : handle) (fact_table : string)
    (province_col city_col district_col subdistrict_col
     province_value city_value district_value subdistrict_value : cell)
  : M (DataFrame * list string) :=
  (* the loop over the four (col_name, col_var) pairs *)
  let given :=
    filter (fun cv => truthy (snd cv))
      [ ("province", province_col); ("city", city_col);
        ("district", district_col); ("sub_district", subdistrict_col) ] in
  let columns := map fst given in
  let select_clauses :=
    map (fun cv => fmt (snd cv) ++ " as " ++ fst cv)%string given in
  let where_clauses :=
    map (fun cv => fmt (snd cv) ++ " IS NOT NULL")%string given in
  let available_columns := map fst given in
  let no_select := match select_clauses with [] => true | _ => false end in
  select_sql <-
    (if no_select then
       if negb (any [truthy province_value; truthy city_value;
                     truthy district_value; truthy subdistrict_value])
       then
         print "Error: You must provide at least one column from the fact table or one static value" ;;;
         sys_exit 1%Z
       else
         ret (nl ++ "        SELECT 1" ++ nl ++ "        FROM " ++ fact_table
              ++ nl ++ "        LIMIT 1" ++ nl ++ "        ")%string
     else
       let select_sql :=
         (nl ++ "        SELECT DISTINCT " ++ join ", " select_clauses ++ nl
          ++ "        FROM " ++ fact_table ++ nl ++ "        ")%string in
       ret (match where_clauses with
            | [] => select_sql
            | _ => select_sql ++ " WHERE " ++ join " AND " where_clauses
            end)%string) ;;
  h <- history ;;
  send conn (select_sql, []) ;;;
  match pd_read_sql w h select_sql with
  | Ok df =>
      let df :=
        if no_select
        then [ [ ("province", None); ("city", None); ("district", None);
                 ("sub_district", None) ] ]
        else df in
      ret (add_static available_columns "sub_district" subdistrict_value
            (add_static available_columns "district" district_value
              (add_static available_columns "city" city_value
                (add_static available_columns "province" province_value
                  (df, columns)))))
  | Raise e =>
      print ("Error fetching distinct locations: " ++ e)%string ;;;
      print ("SQL query: " ++ select_sql)%string ;;;
      sys_exit 1%Z
  end.

(* ===================================================================== *)
(** ** lookup_location_ids *)
(* ===================================================================== *)

Definition column_mapping : dict string :=
  [ ("province", "provinsi"); ("city", "kota_kabupaten");
    ("district", "kecamatan"); ("sub_district", "kelurahan_desa") ].

(** ['objectid'] and, for each of [columns] that the mapping knows, its
    master column. *)
Definition select_columns_of (columns : list string) : list string :=
  "objectid" ::
  flat_map (fun col => match dict_get column_mapping col with
                       | Some db_col => [db_col]
                       | None => []
                       end) columns.

(** [pd.notna(x)] *)
Definition notna (x : cell) : bool :=
  match x with Some _ => true | None => false end.

(** [row.get(col)] and [loc.get(col)]: [None] for an absent key. *)
Definition row_get (row : dict cell) (col : string) : cell :=
  match dict_get row col with Some v => v | None => None end.

(** One entry of [conditions]. *)
Definition condition (db_col value : string) : string :=
  ("LOWER(" ++ db_col ++ ") = LOWER('" ++ value ++ "')")%string.

(** The inner loop that builds [conditions] for one row.  [None] is the
    KeyError of [column_mapping[col]] for a column the mapping lacks. *)
Fixpoint conditions_of (row : dict cell) (columns : list string)
  : option (list string) :=
  match columns with
  | [] => Some []
  | col :: rest =>
      match dict_get row col with
      | Some (Some v) =>
          let value := replace quote1 "''" v in
          match dict_get column_mapping col with
          | Some db_col =>
              match conditions_of row rest with
              | Some conditions => Some (condition db_col value :: conditions)
              | None => None
              end
          | None => None
          end
      | _ => conditions_of row rest
      end
  end.

Definition lookup_sql_of (select_columns conditions : list string) : string :=
  (nl ++ "        SELECT " ++ join ", " select_columns ++ nl
   ++ "        FROM indonesia_boundaries" ++ nl
   ++ "        WHERE " ++ join " AND " conditions ++ nl
   ++ "        LIMIT 1" ++ nl ++ "        ")%string.

(** The loop [for i, col in enumerate(columns, 1)] that fills
    [result_dict], from index [i] on. *)
Fixpoint fill_result (result : list cell) (row : dict cell) (i : nat)
    (columns : list string) (result_dict : dict cell) : dict cell :=
  match columns with
  | [] => result_dict
  | col :: rest =>
      let v := if Nat.ltb i (length result) then nth i result None
               else row_get row col in
      fill_result result row (S i) rest (dict_set result_dict col v)
  end.

(** The body of [for _, row in locations_df.iterrows()]; [results] is the
    list being appended to.  An uncaught KeyError ends the process with
    status 1 (its traceback goes to stderr). *)
Definition lookup_row (neon_db_conn : handle)
    (columns select_columns : list string)
    (results : list (dict cell)) (row : dict cell) : M (list (dict cell)) :=
  match conditions_of row columns with
  | None => sys_exit 1%Z
  | Some [] => ret results
  | Some conditions =>
      let lookup_sql := lookup_sql_of select_columns conditions in
      h <- history ;;
      send neon_db_conn (lookup_sql, []) ;;;
      match fetchone w h lookup_sql with
      | Ok (Some (objectid :: others)) =>
          let result := objectid :: others in
          ret (results ++ [fill_result result row 1 columns
                             [("location_id", objectid)]])
      | Ok _ =>
          print ("Warning: No location found for " ++ repr_dict row)%string ;;;
          ret results
      | Raise e =>
          print ("Error looking up location ID: " ++ e)%string ;;;
          print ("SQL query: " ++ lookup_sql)%string ;;;
          ret results
      end
  end.

(** A [for] loop whose body updates an accumulator. *)
Fixpoint for_each {A B} (body : B -> A -> M B) (xs : list A) (acc : B)
  : M B :=
  match xs with
  | [] => ret acc
  | x :: xs' => acc' <- body acc x ;; for_each body xs' acc'
  end.

Definition lookup_location_ids (locations_df : DataFrame)
    (columns : list string) : M (list (dict cell) * list string) :=
  neon_db_conn <- connect_to_db (environ_MASTER_DB_URI w) None ;;
  let select_columns := select_columns_of columns in
  results <- for_each (lookup_row neon_db_conn columns select_columns)
               locations_df [] ;;
  close neon_db_conn ;;;
  ret (results, select_columns).

(* ===================================================================== *)
(** ** create_geo_ref_table *)
(* ===================================================================== *)

(** The name a level gets in geo_ref: the user's column name, else the
    default. *)
Definition level_name (col : cell) (default : string) : string :=
  if truthy col then fmt col else default.

(** One of the four blocks that add a column definition. *)
Definition column_def (col value : cell) (default : string) : list string :=
  if (truthy col || truthy value)%bool
  then [ (String quote2 (level_name col default) ++ String quote2 ""
          ++ " VARCHAR(255)")%string ]
  else [].

Definition create_table_sql_of (args : Args) : string :=
  let columns :=
    ["location_id VARCHAR(255) NOT NULL"]
    ++ column_def (province_col args) (province args) "province"
    ++ column_def (city_col args) (city args) "city"
    ++ column_def (district_col args) (district args) "district"
    ++ column_def (subdistrict_col args) (subdistrict args) "sub_district"
    ++ ["created_at TIMESTAMP DEFAULT CURRENT_TIMESTAMP"] in
  (nl ++ "    CREATE TABLE IF NOT EXISTS geo_ref (" ++ nl ++ "        "
   ++ join ", " columns ++ nl ++ "    );" ++ nl ++ "    ")%string.

Definition create_geo_ref_table (conn : handle) (args : Args) : M unit :=
  let create_table_sql := create_table_sql_of args in
  let failed e :=
    print ("Error creating geo_ref table: " ++ e)%string ;;;
    print ("SQL query: " ++ create_table_sql)%string ;;;
    sys_exit 1%Z in
  h <- history ;;
  send conn (create_table_sql, []) ;;;
  match execute w h (create_table_sql, []) with
  | Ok _ =>
      h <- history ;;
      match commit w h with
      | Ok _ =>
          do_commit ;;;
          print "Geo reference table created or already exists"
      | Raise e => failed e
      end
  | Raise e => failed e
  end.

(* ===================================================================== *)
(** ** insert_into_geo_ref *)
(* ===================================================================== *)

(** One of the four blocks that add an insert column. *)
Definition insert_column (col value : cell) (default : string)
  : list string :=
  if (truthy col || truthy value)%bool
  then [ (String quote2 (level_name col default) ++ String quote2 "")%string ]
  else [].

Definition insert_columns_of (args : Args) : list string :=
  ["location_id"]
  ++ insert_column (province_col args) (province args) "province"
  ++ insert_column (city_col args) (city args) "city"
  ++ insert_column (district_col args) (district args) "district"
  ++ insert_column (subdistrict_col args) (subdistrict args) "sub_district".

Definition insert_sql_of (args : Args) : string :=
  let insert_columns := insert_columns_of args in
  let placeholders := join ", " (repeat "%s" (length insert_columns)) in
  (nl ++ "    INSERT INTO geo_ref (" ++ join ", " insert_columns ++ ")" ++ nl
   ++ "    VALUES (" ++ placeholders ++ ")" ++ nl ++ "    ")%string.

(** One of the four blocks that add a value: the location's entry when the
    level has a column, the static value otherwise. *)
Definition insert_value (col value : cell) (key : string) (loc : dict cell)
  : list cell :=
  if (truthy col || truthy value)%bool
  then [ if truthy col then row_get loc key else value ]
  else [].

(** The tail of [values] after [loc['location_id']]. *)
Definition level_values (args : Args) (loc : dict cell) : list cell :=
  insert_value (province_col args) (province args) "province" loc
  ++ insert_value (city_col args) (city args) "city" loc
  ++ insert_value (district_col args) (district args) "district" loc
  ++ insert_value (subdistrict_col args) (subdistrict args) "sub_district" loc.

(** The loop [for loc in locations] inside the [try].  It returns how the
    loop ended and the binding of the local [values] at that point ([None]
    while it is unbound). *)
Fixpoint insert_loop (conn : handle) (insert_sql : string) (args : Args)
    (locations : list (dict cell)) (values : option (list cell))
  : M (result unit * option (list cell)) :=
  match locations with
  | [] => ret (Ok tt, values)
  | loc :: rest =>
      match dict_get loc "location_id" with
      | None => ret (Raise "'location_id'", values)
      | Some location_id =>
          let values := location_id :: level_values args loc in
          h <- history ;;
          send conn (insert_sql, values) ;;;
          match execute w h (insert_sql, values) with
          | Ok _ =>
              add_pending values ;;;
              insert_loop conn insert_sql args rest (Some values)
          | Raise e => ret (Raise e, Some values)
          end
      end
  end.

(** The [except] block.  With [values] unbound, printing it raises
    NameError inside the handler: the process ends with status 1 before the
    rollback. *)
Definition insert_failed (insert_sql e : string) (values : option (list cell))
  : M unit :=
  print ("Error inserting into geo_ref table: " ++ e)%string ;;;
  print ("Failed SQL: " ++ insert_sql)%string ;;;
  match values with
  | Some values =>
      print ("Values: " ++ repr_list values)%string ;;;
      rollback ;;;
      sys_exit 1%Z
  | None => sys_exit 1%Z
  end.

Definition insert_into_geo_ref (conn : handle) (locations : list (dict cell))
    (select_columns : list string) (args : Args) : M unit :=
  match locations with
  | [] => print "No locations to insert"
  | _ =>
      let insert_sql := insert_sql_of args in
      r <- insert_loop conn insert_sql args locations None ;;
      match r with
      | (Ok _, values) =>
          h <- history ;;
          match commit w h with
          | Ok _ =>
              do_commit ;;;
              print ("Successfully inserted " ++ str_nat (length locations)
                     ++ " locations into geo_ref table")%string
          | Raise e => insert_failed insert_sql e values
          end
      | (Raise e, values) => insert_failed insert_sql e values
      end
  end.

(* ===================================================================== *)
(** ** main *)
(* ===================================================================== *)

(** [main] from the parsed command line on.  Before it,
    [parser.parse_args()] builds [args]; on a command line it rejects,
    argparse itself ends the process with status 2, and none of what
    follows is run. *)
Definition main (args : Args) : M unit :=
  valid <- validate_hierarchy args ;;
  (if negb valid then sys_exit 1%Z else ret tt) ;;;
  conn <-
    (if truthy (connection_uri args)
     then connect_to_db (connection_uri args) None
     else if negb (all [truthy (host args); truthy (database args);
                        truthy (user args)])
     then
       print "Error: When not using --connection-uri, you must specify --host, --database, and --user" ;;;
       sys_exit 1%Z
     else
       let password := getpass w in
       connect_to_db None
         (Some {| db_host := host args; db_port := port args;
                  db_database := database args; db_user := user args;
                  db_password := password |})) ;;
  print ("Fetching distinct locations from " ++ fact_table args ++ "...")%string ;;;
  fetched <- fetch_distinct_locations conn (fact_table args)
               (province_col args) (city_col args) (district_col args)
               (subdistrict_col args) (province args) (city args)
               (district args) (subdistrict args) ;;
  let (locations_df, columns) := fetched in
  print ("Found " ++ str_nat (length locations_df)
         ++ " distinct location combinations")%string ;;;
  print "Looking up location IDs from geo_location_master..." ;;;
  looked <- lookup_location_ids locations_df columns ;;
  let (locations, select_columns) := looked in
  print ("Found " ++ str_nat (length locations)
         ++ " matching location IDs")%string ;;;
  create_geo_ref_table conn args ;;;
  insert_into_geo_ref conn locations select_columns args ;;;
  close conn ;;;
  print "Migration completed successfully".

End Script.

(** The status the process ends with. *)
Definition exit_code (o : outcome unit) : Z :=
  match o with
  | Ret _ => 0%Z
  | Exit code => code
  end.

(* ===================================================================== *)
(** ** The hierarchy, as the properties speak of it *)
(* ===================================================================== *)

Inductive Level := Province | City | District | SubDistrict.

Definition levels : list Level := [Province; City; District; SubDistrict].

(** Position in the order of significance, province first. *)
Definition rank (L : Level) : nat :=
  match L with
  | Province => 0 | City => 1 | District => 2 | SubDistrict => 3
  end.

(** The name of a level in the data frame, in [columns] and in a resolved
    location. *)
Definition key_of (L : Level) : string :=
  match L with
  | Province => "province" | City => "city"
  | District => "district" | SubDistrict => "sub_district"
  end.

(** The name of a level inside [validate_hierarchy] and its messages. *)
Definition hkey (L : Level) : string :=
  match L with
  | Province => "province" | City => "city"
  | District => "district" | SubDistrict => "subdistrict"
  end.

(** The master column of a level. *)
Definition master_column (L : Level) : string :=
  match L with
  | Province => "provinsi" | City => "kota_kabupaten"
  | District => "kecamatan" | SubDistrict => "kelurahan_desa"
  end.

(** [args.<level>_col] and [args.<level>]. *)
Definition col_of (args : Args) (L : Level) : cell :=
  match L with
  | Province => province_col args | City => city_col args
  | District => district_col args | SubDistrict => subdistrict_col args
  end.

Definition value_of (args : Args) (L : Level) : cell :=
  match L with
  | Province => province args | City => city args
  | District => district args | SubDistrict => subdistrict args
  end.

(** A level is supplied as a column, has a static value, is active. *)
Definition has_col (args : Args) (L : Level) : bool := truthy (col_of args L).
Definition has_val (args : Args) (L : Level) : bool := truthy (value_of args L).
Definition active (args : Args) (L : Level) : bool :=
  has_col args L || has_val args L.

(** The rule of the validator in the words of its specification: some level
    is active, and above every column level every level is active. *)
Definition consistent (args : Args) : Prop :=
  (exists L, active args L = true) /\
  (forall L U, has_col args L = true -> rank U < rank L ->
               active args U = true).

(** The process after printing [out] and nothing else. *)
Definition printed (p : Process) (out : list string) : Process :=
  {| stdout := stdout p ++ out; conns := conns p; sent := sent p;
     geo_ref := geo_ref p; pending := pending p |}.

Definition msg_no_input : string :=
  "Error: You must provide at least one location column or value".

Definition msg_missing_upper (L U : Level) : string :=
  ("Error: " ++ hkey L ++ " column provided but missing " ++ hkey U
   ++ " column or value")%string.

(** The rule as a boolean over the four levels. *)
Definition consistentb (args : Args) : bool :=
  existsb (active args) levels &&
  forallb (fun L =>
    negb (has_col args L) ||
    forallb (fun U => negb (Nat.ltb (rank U) (rank L)) || active args U)
            levels) levels.

(** What [validate_hierarchy] prints when it refuses: the at-least-one
    message when no level is active, else the message naming a column level
    and a level above it that is not active. *)
Definition refusal (args : Args) (out : list string) : Prop :=
  ((forall L, active args L = false) /\ out = [msg_no_input]) \/
  (exists L U, has_col args L = true /\ rank U < rank L /\
               active args U = false /\ out = [msg_missing_upper L U]).

(* ===================================================================== *)
(** ** The lookup filter, as the properties speak of it *)
(* ===================================================================== *)

(** Lowering the ASCII letters: what a database's [LOWER] does on ASCII
    text (on other letters it depends on the database's locale). *)
Definition lower_char (c : ascii) : ascii :=
  let n := nat_of_ascii c in
  if (Nat.leb 65 n && Nat.leb n 90)%bool then ascii_of_nat (n + 32) else c.

Fixpoint lower (s : string) : string :=
  match s with
  | EmptyString => EmptyString
  | String c s' => String (lower_char c) (lower s')
  end.

(** The filter for one tuple over the active levels: a pair of master
    column and tuple value for each level whose value is not null. *)
Definition filter_of (row : dict cell) (active : list Level)
  : list (string * string) :=
  flat_map (fun L => match dict_get row (key_of L) with
                     | Some (Some v) => [(master_column L, v)]
                     | _ => []
                     end) active.

(** The text the script writes for one pair. *)
Definition render (c : string * string) : string :=
  condition (fst c) (replace quote1 "''" (snd c)).

(* ===================================================================== *)
(** ** Describing a step of the run *)
(* ===================================================================== *)

(** The process after printing [out] and sending [stmts], nothing else. *)
Definition logged (p : Process) (out : list string)
    (stmts : list (handle * stmt)) : Process :=
  {| stdout := stdout p ++ out; conns := conns p; sent := sent p ++ stmts;
     geo_ref := geo_ref p; pending := pending p |}.

(** The lines the resolver prints. *)
Definition warning_no_location (row : dict cell) : string :=
  ("Warning: No location found for " ++ repr_dict row)%string.

Definition error_lookup_lines (e lookup_sql : string) : list string :=
  [ ("Error looking up location ID: " ++ e)%string;
    ("SQL query: " ++ lookup_sql)%string ].

(** [needle in haystack] for strings. *)
Fixpoint contains (needle haystack : string) : bool :=
  if String.prefix needle haystack then true
  else match haystack with
       | EmptyString => false
       | String _ rest => contains needle rest
       end.

(** [m], started in [p], ends in an outcome and a process that satisfy
    [Q]. *)
Definition post {A} (m : M A) (p : Process)
    (Q : outcome A -> Process -> Prop) : Prop :=
  Q (fst (m p)) (snd (m p)).

(** A resolved location carries its identifier. *)
Definition has_id (loc : dict cell) : Prop :=
  dict_get loc "location_id" <> None.

(** Statements sent as text alone, all over connection [h]. *)
Definition plain_on (h : handle) (stmts : list (handle * stmt)) : Prop :=
  Forall (fun x => fst x = h /\ snd (snd x) = []) stmts.

(* ===================================================================== *)
(** ** Worlds and command lines used in the examples *)
(* ===================================================================== *)

(** Every call into the databases succeeds; the fact table is empty and the
    master answers every lookup with one row. *)
Definition world_all_ok : World :=
  {| environ_MASTER_DB_URI := Some "postgres://master";
     getpass := "secret";
     psycopg2_connect := fun _ => Ok tt;
     pd_read_sql := fun _ _ => Ok [];
     fetchone := fun _ _ => Ok (Some [Some "1"]);
     execute := fun _ _ => Ok tt;
     commit := fun _ => Ok tt |}.

(** From [p] to [p'] the run only printed and only sent statements without
    parameters (the SELECTs and the DDL; an INSERT carries its values). *)
Definition grows (p p' : Process) : Prop :=
  (exists out, stdout p' = stdout p ++ out) /\
  (exists stmts, sent p' = sent p ++ stmts /\
                 Forall (fun x => snd (snd x) = []) stmts).

(** ... and touched neither a connection nor geo_ref. *)
Definition quiet (p p' : Process) : Prop :=
  conns p' = conns p /\ geo_ref p' = geo_ref p /\ pending p' = pending p /\
  grows p p'.

(** Every statement with parameters in the log (every INSERT) was answered
    without an exception, given the statements before it. *)
Definition inserts_ok (w : World) (log : list (handle * stmt)) : Prop :=
  forall pre h st post,
    log = pre ++ (h, st) :: post -> snd st <> [] ->
    exists u, execute w pre st = Ok u.

(** Some INSERT in the log was answered with an exception. *)
Definition insert_failed_in (w : World) (log : list (handle * stmt)) : Prop :=
  exists pre h st post e,
    log = pre ++ (h, st) :: post /\ snd st <> [] /\
    execute w pre st = Raise e.

(** What can end a run early: a refused configuration, missing connection
    parameters, an unset master URI, or an exception from a database. *)
Definition fatal_cause (w : World) (args : Args) : Prop :=
  consistentb args = false \/
  (truthy (connection_uri args) = false /\
   all [truthy (host args); truthy (database args); truthy (user args)]
   = false) \/
  truthy (environ_MASTER_DB_URI w) = false \/
  (exists params e, psycopg2_connect w params = Raise e) \/
  (exists h sql e, pd_read_sql w h sql = Raise e) \/
  (exists h st e, execute w h st = Raise e) \/
  (exists h e, commit w h = Raise e).

(** The names [fetch_distinct_locations] can put in [columns]. *)
Definition known (col : string) : Prop :=
  dict_get column_mapping col <> None /\ (col =? "location_id") = false.

(** The process after one more connection was opened. *)
Definition opened (p : Process) : Process :=
  {| stdout := stdout p; conns := conns p ++ [Open]; sent := sent p;
     geo_ref := geo_ref p; pending := pending p |}.

(** [fetch_distinct_locations] with its eight level arguments given per
    level. *)
Definition fetch_by_level (w : World) (conn : handle) (fact_table : string)
    (col val : Level -> cell) : M (DataFrame * list string) :=
  fetch_distinct_locations w conn fact_table
    (col Province) (col City) (col District) (col SubDistrict)
    (val Province) (val City) (val District) (val SubDistrict).

(** The probe sent when no level is a column. *)
Definition probe_sql (fact_table : string) : string :=
  (nl ++ "        SELECT 1" ++ nl ++ "        FROM " ++ fact_table
   ++ nl ++ "        LIMIT 1" ++ nl ++ "        ")%string.

(** A static value as extraction applies it: the value when it is truthy,
    null otherwise. *)
Definition static (value : cell) : cell :=
  if truthy value then value else None.

(** The fact table answers the probe with its one row. *)
Definition world_probe : World :=
  {| environ_MASTER_DB_URI := Some "postgres://master";
     getpass := "secret";
     psycopg2_connect := fun _ => Ok tt;
     pd_read_sql := fun _ _ => Ok [ [("?column?", Some "1")] ];
     fetchone := fun _ _ => Ok None;
     execute := fun _ _ => Ok tt;
     commit := fun _ => Ok tt |}.

(** The fact table has the cities Bandung and Jakarta; the master knows
    Bandung in Jawa Barat only, in capitals. *)
Definition world_two_cities : World :=
  {| environ_MASTER_DB_URI := Some "postgres://master";
     getpass := "secret";
     psycopg2_connect := fun _ => Ok tt;
     pd_read_sql := fun _ _ =>
       Ok [ [("city", Some "Bandung")]; [("city", Some "Jakarta")] ];
     fetchone := fun _ sql =>
       if contains "LOWER('Bandung')" sql
       then Ok (Some [Some "3273"; Some "BANDUNG"; Some "JAWA BARAT"])
       else Ok None;
     execute := fun _ _ => Ok tt;
     commit := fun _ => Ok tt |}.

(** The row of geo_ref written for a resolved location. *)
Definition geo_ref_row (args : Args) (loc : dict cell) : list cell :=
  row_get loc "location_id" :: level_values args loc.


(** What holds of the process of [main] up to the writer: the connections
    are [cs], geo_ref has no row, committed or pending, and no INSERT has
    been answered with an exception. *)
Definition run_inv (w : World) (cs : list conn_status) (p : Process) : Prop :=
  conns p = cs /\ geo_ref p = [] /\ pending p = [] /\
  inserts_ok w (sent p).

(** The outcomes of [main].  Either it completes: both connections are
    closed and every INSERT was accepted.  Or it exits with status 1 for one
    of the fatal causes: nothing is committed to geo_ref, the master
    connection is closed if it was opened, and the fact/destination
    connection, if it was opened, is still open. *)
Definition main_outcome (w : World) (args : Args)
    (o : outcome unit) (pf : Process) : Prop :=
  pending pf = [] /\
  ((o = Ret tt /\ conns pf = [Closed; Closed] /\ inserts_ok w (sent pf)) \/
   (o = Exit 1%Z /\ geo_ref pf = [] /\
    (conns pf = [] \/ conns pf = [Open] \/ conns pf = [Open; Closed]) /\
    fatal_cause w args)).

(** [--connection-uri postgres://fact --fact-table sales --city-col kota
    --province "Jawa Barat"] *)
Definition args_city_col : Args :=
  {| connection_uri := Some "postgres://fact"; host := None; port := 5432%Z;
     database := None; user := None; fact_table := "sales";
     province_col := None; city_col := Some "kota"; district_col := None;
     subdistrict_col := None; province := Some "Jawa Barat"; city := None;
     district := None; subdistrict := None |}.

(** The connection to the master is lost: every lookup raises. *)
Definition world_master_down : World :=
  {| environ_MASTER_DB_URI := Some "postgres://master";
     getpass := "secret";
     psycopg2_connect := fun _ => Ok tt;
     pd_read_sql := fun _ _ =>
       Ok [ [("city", Some "Bandung")]; [("city", Some "Jakarta")] ];
     fetchone := fun _ _ => Raise "connection lost";
     execute := fun _ _ => Ok tt;
     commit := fun _ => Ok tt |}.

(** The query on the fact table raises. *)
Definition world_read_fails : World :=
  {| environ_MASTER_DB_URI := Some "postgres://master";
     getpass := "secret";
     psycopg2_connect := fun _ => Ok tt;
     pd_read_sql := fun _ _ => Raise "relation does not exist";
     fetchone := fun _ _ => Ok None;
     execute := fun _ _ => Ok tt;
     commit := fun _ => Ok tt |}.

(** Both cities resolve; geo_ref accepts the first INSERT and refuses the
    second (the DDL, which carries no values, is accepted). *)
Definition world_insert_fails : World :=
  {| environ_MASTER_DB_URI := Some "postgres://master";
     getpass := "secret";
     psycopg2_connect := fun _ => Ok tt;
     pd_read_sql := fun _ _ =>
       Ok [ [("city", Some "Bandung")]; [("city", Some "Jakarta")] ];
     fetchone := fun _ sql =>
       if contains "LOWER('Bandung')" sql
       then Ok (Some [Some "3273"; Some "BANDUNG"; Some "JAWA BARAT"])
       else Ok (Some [Some "3171"; Some "JAKARTA"; Some "JAWA BARAT"]);
     execute := fun _ st =>
       match snd st with
       | Some "3171" :: _ => Raise "value too long for type"
       | _ => Ok tt
       end;
     commit := fun _ => Ok tt |}.

(** A tuple whose value has a single quote. *)
Definition row_quote : dict cell := [("province", Some "O'Brien")].

(* ===================================================================== *)
(** ** Further notions used in the properties *)
(* ===================================================================== *)

(** Reading an SQL string literal from just after its opening quote: the
    string it denotes and the text after its closing quote ([None] when the
    literal is not closed).  A doubled single quote is one quote of the
    string; a single one closes the literal.  (Backslashes are ordinary
    characters, as with PostgreSQL's standard-conforming strings.) *)
Fixpoint scan_literal (s : string) : option (string * string) :=
  match s with
  | EmptyString => None
  | String c rest =>
      if Ascii.eqb c quote1 then
        match rest with
        | String c2 rest2 =>
            if Ascii.eqb c2 quote1 then
              match scan_literal rest2 with
              | Some (v, r) => Some (String quote1 v, r)
              | None => None
              end
            else Some (EmptyString, rest)
        | EmptyString => Some (EmptyString, EmptyString)
        end
      else
        match scan_literal rest with
        | Some (v, r) => Some (String c v, r)
        | None => None
        end
  end.

(** The active levels in the order extraction lists them: the levels with a
    column in hierarchy order, then the levels that have only a static
    value in hierarchy order. *)
Definition active_order (col val : Level -> cell) : list Level :=
  filter (fun L => truthy (col L)) levels
  ++ filter (fun L => (truthy (val L) && negb (truthy (col L)))%bool) levels.

(** The pair a refusal names: [U] is the most significant level that is not
    active, and [L] is the most significant column level below [U]. *)
Definition coarsest_pair (args : Args) (L U : Level) : Prop :=
  active args U = false /\
  (forall U', rank U' < rank U -> active args U' = true) /\
  has_col args L = true /\ rank U < rank L /\
  (forall L', has_col args L' = true -> rank U < rank L' ->
              rank L <= rank L').

(** The same as a boolean over the four levels. *)
Definition coarsest_pairb (args : Args) (L U : Level) : bool :=
  negb (active args U)
  && forallb (fun U' => negb (Nat.ltb (rank U') (rank U)) || active args U')
             levels
  && has_col args L && Nat.ltb (rank U) (rank L)
  && forallb (fun L' => negb (has_col args L' && Nat.ltb (rank U) (rank L'))
                        || Nat.leb (rank L) (rank L')) levels.

(* ===================================================================== *)
(** ** The master database, as it reads a lookup *)
(* ===================================================================== *)

(** The table [indonesia_boundaries]: the names of its columns and its
    rows, each a value per column. *)
Record Table := {
  tcolumns : list string;
  trows : list (list cell)
}.

(** A lookup as the database reads it: the columns selected, the table,
    and the comparisons [LOWER(col) = LOWER('value')] of the WHERE clause,
    all of which must hold. *)
Record Lookup := {
  lk_select : list string;
  lk_table : string;
  lk_where : list (string * string)
}.

Definition is_space (c : ascii) : bool :=
  let n := nat_of_ascii c in
  (Nat.eqb n 32 || Nat.eqb n 9 || Nat.eqb n 10 || Nat.eqb n 13)%bool.

Fixpoint skip_spaces (s : string) : string :=
  match s with
  | String c rest => if is_space c then skip_spaces rest else s
  | EmptyString => s
  end.

(** The characters of an identifier written without quotes, in lower
    case. *)
Definition is_ident_char (c : ascii) : bool :=
  let n := nat_of_ascii c in
  ((Nat.leb 97 n && Nat.leb n 122) || (Nat.leb 48 n && Nat.leb n 57)
   || Nat.eqb n 95)%bool.

(** The longest identifier at the head of [s], and the text after it. *)
Fixpoint read_ident (s : string) : string * string :=
  match s with
  | String c rest =>
      if is_ident_char c
      then let (x, r) := read_ident rest in (String c x, r)
      else (EmptyString, s)
  | EmptyString => (EmptyString, EmptyString)
  end.

(** [s] without its prefix [pre]. *)
Fixpoint strip_prefix (pre s : string) : option string :=
  match pre, s with
  | EmptyString, _ => Some s
  | String a pre', String b s' =>
      if Ascii.eqb a b then strip_prefix pre' s' else None
  | _, _ => None
  end.

(** A punctuation mark, after any space. *)
Definition symbol (k s : string) : option string :=
  strip_prefix k (skip_spaces s).

(** A word in capitals, after any space, that is not the start of a longer
    word. *)
Definition keyword (k s : string) : option string :=
  match strip_prefix k (skip_spaces s) with
  | Some (String c r) =>
      let n := nat_of_ascii c in
      if (is_ident_char c || (Nat.leb 65 n && Nat.leb n 90))%bool
      then None else Some (String c r)
  | other => other
  end.

Notation "'let?' x := e 'in' k" :=
  (match e with Some x => k | None => None end)
  (at level 10, x pattern, e at level 200, k at level 200).

(** [LOWER(col) = LOWER('literal')]: the column, the string the literal
    denotes, and the text after the comparison. *)
Definition read_comparison (s : string) : option ((string * string) * string) :=
  let? s := keyword "LOWER" s in
  let? s := symbol "(" s in
  let (col, s) := read_ident (skip_spaces s) in
  if col =? "" then None else
  let? s := symbol ")" s in
  let? s := symbol "=" s in
  let? s := keyword "LOWER" s in
  let? s := symbol "(" s in
  let? s := symbol (String quote1 "") s in
  let? (v, s) := scan_literal s in
  let? s := symbol ")" s in
  Some ((col, v), s).

(** Comparisons joined by AND; [fuel] bounds their number. *)
Fixpoint read_conjunction (fuel : nat) (s : string)
  : option (list (string * string) * string) :=
  match fuel with
  | O => None
  | S fuel' =>
      let? (c, r) := read_comparison s in
      match keyword "AND" r with
      | Some r' =>
          let? (cs, r'') := read_conjunction fuel' r' in
          Some (c :: cs, r'')
      | None => Some ([c], r)
      end
  end.

(** Identifiers separated by commas; [fuel] bounds their number. *)
Fixpoint read_idents (fuel : nat) (s : string)
  : option (list string * string) :=
  match fuel with
  | O => None
  | S fuel' =>
      let (x, r) := read_ident (skip_spaces s) in
      if x =? "" then None else
      match symbol "," r with
      | Some r' =>
          let? (xs, r'') := read_idents fuel' r' in
          Some (x :: xs, r'')
      | None => Some ([x], r)
      end
  end.

(** [SELECT columns FROM table WHERE comparison AND ... LIMIT 1], and
    nothing after it; any other text is not read. *)
Definition read_lookup (sql : string) : option Lookup :=
  let fuel := String.length sql in
  let? s := keyword "SELECT" sql in
  let? (cols, s) := read_idents fuel s in
  let? s := keyword "FROM" s in
  let (table, s) := read_ident (skip_spaces s) in
  let? s := keyword "WHERE" s in
  let? (conds, s) := read_conjunction fuel s in
  let? s := keyword "LIMIT" s in
  let? s := symbol "1" s in
  match skip_spaces s with
  | EmptyString =>
      Some {| lk_select := cols; lk_table := table; lk_where := conds |}
  | _ => None
  end.

(** The place of a column among the table's columns. *)
Fixpoint index_of (x : string) (xs : list string) : option nat :=
  match xs with
  | [] => None
  | y :: ys => if y =? x then Some 0 else option_map S (index_of x ys)
  end.

(** [f] on every element, when it is defined on all of them. *)
Fixpoint traverse {A B} (f : A -> option B) (xs : list A) : option (list B) :=
  match xs with
  | [] => Some []
  | x :: xs' =>
      let? y := f x in
      let? ys := traverse f xs' in
      Some (y :: ys)
  end.

(** [LOWER(col) = LOWER('v')] on a row, for the column at place [fst c]:
    true when the column is not null and equals [v] once the database has
    lowered both with its function [LOWER]. *)
Definition comparison_true (LOWER : string -> string) (r : list cell)
    (c : nat * string) : bool :=
  match nth (fst c) r None with
  | Some x => LOWER x =? LOWER (snd c)
  | None => false
  end.

(** What the master answers to [execute(sql)] followed by [fetchone()]:
    the selected columns of the first row on which every comparison is
    true, or no row; an exception for a text it cannot read, another table
    or a column the table lacks. *)
Definition master_answer (LOWER : string -> string) (t : Table)
    (sql : string) : result (option (list cell)) :=
  match read_lookup sql with
  | None => Raise "syntax error"
  | Some q =>
      if lk_table q =? "indonesia_boundaries" then
        match traverse (fun c => index_of c (tcolumns t)) (lk_select q),
              traverse (fun c => option_map (fun i => (i, snd c))
                                   (index_of (fst c) (tcolumns t)))
                       (lk_where q) with
        | Some sel, Some wh =>
            Ok (option_map (fun r => map (fun i => nth i r None) sel)
                  (find (fun r => forallb (comparison_true LOWER r) wh)
                        (trows t)))
        | _, _ => Raise "column does not exist"
        end
      else Raise "relation does not exist"
  end.

(** The value of a row in a named column (null for a name the table
    lacks). *)
Definition column_value (t : Table) (r : list cell) (col : string) : cell :=
  match index_of col (tcolumns t) with
  | Some i => nth i r None
  | None => None
  end.

(** The table has the identifier and the four level columns. *)
Definition has_master_columns (t : Table) : bool :=
  forallb (fun c => mem c (tcolumns t))
          ["objectid"; "provinsi"; "kota_kabupaten"; "kecamatan";
           "kelurahan_desa"].

(** A master row matches a tuple over the active levels: at every level
    where the tuple has a value, the row's mapped column is not null and
    equals that value once both are lowered. *)
Definition matches (LOWER : string -> string) (t : Table) (r : list cell)
    (row : dict cell) (active : list Level) : Prop :=
  forall L v, In L active -> dict_get row (key_of L) = Some (Some v) ->
    exists x, column_value t r (master_column L) = Some x /\
              LOWER x = LOWER v.

Definition matchesb (LOWER : string -> string) (t : Table) (r : list cell)
    (row : dict cell) (active : list Level) : bool :=
  forallb (fun L => match dict_get row (key_of L) with
                    | Some (Some v) =>
                        match column_value t r (master_column L) with
                        | Some x => LOWER x =? LOWER v
                        | None => false
                        end
                    | _ => true
                    end) active.

(** A world whose master holds the table [t] and lowers with [LOWER]. *)
Definition world_master (LOWER : string -> string) (t : Table) : World :=
  {| environ_MASTER_DB_URI := Some "postgres://master";
     getpass := "secret";
     psycopg2_connect := fun _ => Ok tt;
     pd_read_sql := fun _ _ => Ok [];
     fetchone := fun _ sql => master_answer LOWER t sql;
     execute := fun _ _ => Ok tt;
     commit := fun _ => Ok tt |}.

(** A master with one row: Kota Bandung in Jawa Barat, in lower case. *)
Definition table_jawa_barat : Table :=
  {| tcolumns := ["objectid"; "provinsi"; "kota_kabupaten"; "kecamatan";
                  "kelurahan_desa"];
     trows := [ [Some "3273"; Some "jawa barat"; Some "kota bandung"; None;
                 None] ] |}.

(* ===================================================================== *)
(** ** A run against a table that already has rows *)
(* ===================================================================== *)

(** The process at the start of a run when geo_ref already holds [rows]. *)
Definition start_with (rows : list (list cell)) : Process :=
  {| stdout := []; conns := []; sent := []; geo_ref := rows; pending := [] |}.

(** The process [p] with [rows] in geo_ref before its own. *)
Definition with_rows (rows : list (list cell)) (p : Process) : Process :=
  {| stdout := stdout p; conns := conns p; sent := sent p;
     geo_ref := rows ++ geo_ref p; pending := pending p |}.

(** [m] neither reads nor drops the rows geo_ref already holds: with
    [rows] before, it ends in the same outcome with [rows] before. *)
Definition framed {A} (m : M A) : Prop :=
  forall rows p, m (with_rows rows p) = (fst (m p), with_rows rows (snd (m p))).

(* ===================================================================== *)
(** ** How a run tells its end *)
(* ===================================================================== *)




(** When [m] returns, the last line printed is [line]. *)
Definition announces {A} (line : string) (m : M A) : Prop :=
  forall p a, fst (m p) = Ret a ->
    exists before, stdout (snd (m p)) = before ++ [line].

(* ===================================================================== *)
(** ** Results: validate_hierarchy *)
(* ===================================================================== *)

Lemma printed_nil p : printed p [] = p.
Proof. destruct p; unfold printed; simpl; rewrite app_nil_r; reflexivity. Qed.

(** The eight truth values [validate_hierarchy] looks at. *)
Ltac split_flags args :=
  destruct (truthy (province_col args)) eqn:Epc;
  destruct (truthy (city_col args)) eqn:Ecc;
  destruct (truthy (district_col args)) eqn:Edc;
  destruct (truthy (subdistrict_col args)) eqn:Esc;
  destruct (truthy (province args)) eqn:Epv;
  destruct (truthy (city args)) eqn:Ecv;
  destruct (truthy (district args)) eqn:Edv;
  destruct (truthy (subdistrict args)) eqn:Esv.

Lemma consistentb_spec args : consistentb args = true <-> consistent args.
Proof.
  unfold consistentb, consistent.
  rewrite andb_true_iff, existsb_exists, forallb_forall.
  split.
  - intros [[L [_ HL]] H]; split; [now exists L|].
    intros L' U HC HR.
    assert (HL' : In L' levels) by (destruct L'; simpl; tauto).
    specialize (H L' HL'). rewrite HC in H; cbn [negb orb] in H.
    rewrite forallb_forall in H.
    assert (HU : In U levels) by (destruct U; simpl; tauto).
    specialize (H U HU).
    apply Nat.ltb_lt in HR. rewrite HR in H. exact H.
  - intros [[L HL] H]; split.
    + exists L; split; [destruct L; simpl; tauto | exact HL].
    + intros L' _. destruct (has_col args L') eqn:HC; [cbn [negb orb] | reflexivity].
      apply forallb_forall. intros U _.
      destruct (Nat.ltb (rank U) (rank L')) eqn:HR; [cbn [negb orb] | reflexivity].
      apply Nat.ltb_lt in HR. now apply (H L' U).
Qed.

(** Try every pair of a column level and a level above it. *)
Ltac find_missing :=
  let go L U :=
    (exists L, U; simpl; repeat split;
     first [assumption | lia | reflexivity
           | repeat match goal with
                    | H : truthy ?x = _ |- context [truthy ?x] => rewrite H
                    end; reflexivity]) in
  first [ go City Province
        | go District Province | go District City
        | go SubDistrict Province | go SubDistrict City
        | go SubDistrict District ].

Lemma validate_hierarchy_run args p :
  exists out,
    validate_hierarchy args p = (Ret (consistentb args), printed p out) /\
    (consistentb args = true -> out = []) /\
    (consistentb args = false -> refusal args out).
Proof.
  unfold validate_hierarchy, has_column, has_value, consistentb, refusal,
    active, has_col, has_val, levels.
  cbn [existsb forallb col_of value_of].
  split_flags args;
    unfold bind, ret, print; simpl;
    try (exists []; rewrite printed_nil;
         split; [reflexivity | split; [reflexivity | discriminate]]);
    (eexists; split; [reflexivity | split; [discriminate | intros _]]).
  all: first [ right; find_missing
             | left; split; [intros []; simpl;
                 repeat match goal with
                        | H : truthy ?x = _ |- context [truthy ?x] => rewrite H
                        end; reflexivity | reflexivity] ].
Qed.

(** C1: for every configuration, [validate_hierarchy] returns (it never
    exits) and returns True exactly when at least one level has a column or
    a static value and every level above a column level has a column or a
    static value.  When it returns False it has printed the at-least-one
    message (no level is active) or the missing-upper-level message for a
    column level and an inactive level above it; when it returns True it
    has printed nothing. *)
Theorem validate_hierarchy_correct :
  forall (args : Args) (p : Process),
  exists (b : bool) (out : list string),
    validate_hierarchy args p = (Ret b, printed p out) /\
    (b = true <-> consistent args) /\
    (b = true -> out = []) /\
    (b = false -> refusal args out).
Proof.
  intros args p.
  destruct (validate_hierarchy_run args p) as (out & Hrun & Hok & Hbad).
  exists (consistentb args), out.
  split; [exact Hrun|]. split; [apply consistentb_spec|]. split; assumption.
Qed.

(* ===================================================================== *)
(** ** Results: the lookup filter *)
(* ===================================================================== *)

Lemma column_mapping_key L :
  dict_get column_mapping (key_of L) = Some (master_column L).
Proof. destruct L; reflexivity. Qed.

Lemma conditions_of_levels row active :
  conditions_of row (map key_of active) = Some (map render (filter_of row active)).
Proof.
  induction active as [|L ls IH]; [reflexivity|].
  cbn [map conditions_of filter_of flat_map].
  fold (filter_of row ls).
  destruct (dict_get row (key_of L)) as [[v|]|]; cbn [app map]; try exact IH.
  rewrite column_mapping_key, IH. reflexivity.
Qed.

Lemma filter_of_non_null row active :
  filter_of row active =
  map (fun L => (master_column L, fmt (row_get row (key_of L))))
      (filter (fun L => notna (row_get row (key_of L))) active).
Proof.
  induction active as [|L ls IH]; [reflexivity|].
  cbn [filter_of flat_map filter]. fold (filter_of row ls).
  rewrite IH. clear IH.
  assert (Hg : row_get row (key_of L)
               = match dict_get row (key_of L) with
                 | Some v => v | None => None end) by reflexivity.
  destruct (dict_get row (key_of L)) as [[v|]|];
    rewrite Hg; cbn [notna app map]; rewrite ?Hg; reflexivity.
Qed.

Lemma string_app_assoc (a b c : string) :
  ((a ++ b) ++ c)%string = (a ++ (b ++ c))%string.
Proof. induction a as [|x a IH]; cbn; [reflexivity | now rewrite IH]. Qed.

Lemma scan_literal_escaped v : forall c tail,
  Ascii.eqb c quote1 = false ->
  scan_literal (replace quote1 "''" v ++ String quote1 (String c tail))
  = Some (v, String c tail).
Proof.
  induction v as [|a v IH]; intros c tail Hc.
  - cbn [replace append scan_literal]. rewrite Ascii.eqb_refl, Hc. reflexivity.
  - cbn [replace]. destruct (Ascii.eqb a quote1) eqn:Ea.
    + apply Ascii.eqb_eq in Ea; subst a.
      change (scan_literal
                (String quote1 (String quote1
                   (replace quote1 "''" v ++ String quote1 (String c tail))))
              = Some (String quote1 v, String c tail)).
      cbn [scan_literal]. rewrite Ascii.eqb_refl.
      rewrite (IH c tail Hc). reflexivity.
    + cbn [append scan_literal]. rewrite Ea.
      rewrite (IH c tail Hc). reflexivity.
Qed.

(** *** The database reads back what the resolver wrote *)

(** One condition, as the database reads it. *)
Lemma read_comparison_render L v rest :
  read_comparison (render (master_column L, v) ++ rest)
  = Some ((master_column L, v), rest).
Proof.
  unfold render, condition. cbn [fst snd].
  rewrite !string_app_assoc.
  unfold read_comparison.
  pose proof (scan_literal_escaped v ")"%char rest eq_refl) as Hlit.
  change (String quote1 (String ")"%char rest)) with ("')" ++ rest)%string
    in Hlit.
  remember (replace quote1 "''" v ++ "')" ++ rest)%string as lit eqn:E.
  clear E.
  destruct L; cbn [master_column append];
    cbv -[scan_literal append]; rewrite Hlit; reflexivity.
Qed.

Lemma read_comparison_space s :
  read_comparison (String " " s) = read_comparison s.
Proof. reflexivity. Qed.

Lemma read_conjunction_space fuel s :
  read_conjunction fuel (String " " s) = read_conjunction fuel s.
Proof. destruct fuel; reflexivity. Qed.

Lemma read_idents_space fuel s :
  read_idents fuel (String " " s) = read_idents fuel s.
Proof. destruct fuel; reflexivity. Qed.

(** The conditions of a tuple joined by AND, as the database reads them:
    the comparisons themselves, up to the text that follows. *)
Lemma read_conjunction_render (lvs : list (Level * string)) :
  forall fuel tail,
    lvs <> [] -> length lvs <= fuel -> keyword "AND" tail = None ->
    read_conjunction fuel
      (join " AND " (map (fun lv => render (master_column (fst lv), snd lv))
                         lvs) ++ tail)
    = Some (map (fun lv => (master_column (fst lv), snd lv)) lvs, tail).
Proof.
  induction lvs as [|[L v] rest IH]; intros fuel tail Hne Hfuel Hkw;
    [congruence|].
  destruct fuel as [|fuel]; [cbn in Hfuel; lia|].
  destruct rest as [|[L2 v2] rest2].
  - cbn [map join fst snd read_conjunction].
    rewrite read_comparison_render, Hkw. reflexivity.
  - assert (Hj : forall x y zs,
              join " AND " (x :: y :: zs)
              = (x ++ " AND " ++ join " AND " (y :: zs))%string)
      by reflexivity.
    cbn [map fst snd]. rewrite Hj, !string_app_assoc.
    cbn [read_conjunction]. rewrite read_comparison_render.
    change (keyword "AND" (" AND " ++ ?X)) with (Some (String " " X)).
    cbv beta iota.
    rewrite read_conjunction_space.
    change (join " AND " (render (master_column L2, v2)
              :: map (fun lv => render (master_column (fst lv), snd lv)) rest2))
      with (join " AND " (map (fun lv => render (master_column (fst lv),
                                                 snd lv))
                              ((L2, v2) :: rest2))).
    rewrite IH; [reflexivity | discriminate | cbn in Hfuel |- *; lia
                | exact Hkw].
Qed.

Lemma read_ident_column L c t :
  is_ident_char c = false ->
  read_ident (skip_spaces (master_column L ++ String c t))
  = (master_column L, String c t).
Proof.
  intros H. destruct L; cbn [master_column append];
    cbv -[is_ident_char]; rewrite H; reflexivity.
Qed.

(** The master columns of the levels joined by commas, as the database
    reads them. *)
Lemma read_idents_columns (ls : list Level) :
  forall fuel L c t,
    length ls < fuel -> is_ident_char c = false ->
    symbol "," (String c t) = None ->
    read_idents fuel (join ", " (map master_column (L :: ls)) ++ String c t)
    = Some (map master_column (L :: ls), String c t).
Proof.
  induction ls as [|L2 rest IH]; intros fuel L c t Hfuel Hc Hsym;
    (destruct fuel as [|fuel]; [cbn in Hfuel; lia|]).
  - cbn [map join read_idents]. rewrite read_ident_column by exact Hc.
    assert (E : (master_column L =? "") = false) by (destruct L; reflexivity).
    rewrite E, Hsym. reflexivity.
  - assert (Hj : forall x y zs,
              join ", " (x :: y :: zs)
              = (x ++ ", " ++ join ", " (y :: zs))%string)
      by reflexivity.
    cbn [map]. rewrite Hj, !string_app_assoc.
    cbn [read_idents].
    change (", " ++ ?X)%string with (String ","%char (String " "%char X)).
    rewrite read_ident_column by reflexivity.
    assert (E : (master_column L =? "") = false) by (destruct L; reflexivity).
    rewrite E.
    change (symbol "," (String ","%char (String " "%char ?X)))
      with (Some (String " "%char X)).
    cbv beta iota. rewrite read_idents_space.
    change (master_column L2 :: map master_column rest)
      with (map master_column (L2 :: rest)).
    rewrite IH; [reflexivity | cbn in Hfuel; lia | exact Hc | exact Hsym].
Qed.

Lemma select_columns_of_levels (ls : list Level) :
  select_columns_of (map key_of ls) = "objectid" :: map master_column ls.
Proof.
  unfold select_columns_of. f_equal.
  induction ls as [|L ls IH]; [reflexivity|].
  cbn [map flat_map]. rewrite column_mapping_key, IH. reflexivity.
Qed.

Lemma read_ident_app (x : string) c t :
  forallb is_ident_char (list_ascii_of_string x) = true ->
  is_ident_char c = false ->
  read_ident (x ++ String c t) = (x, String c t).
Proof.
  intros Hx Hc. induction x as [|a x IH].
  - cbn [append read_ident]. rewrite Hc. reflexivity.
  - cbn [list_ascii_of_string forallb] in Hx.
    apply andb_true_iff in Hx. destruct Hx as [Ha Hx].
    cbn [append read_ident]. rewrite Ha, (IH Hx). reflexivity.
Qed.

Lemma read_idents_select (ls : list Level) fuel c t :
  length ls < fuel -> is_ident_char c = false ->
  symbol "," (String c t) = None ->
  read_idents fuel (join ", " ("objectid" :: map master_column ls)
                    ++ String c t)
  = Some ("objectid" :: map master_column ls, String c t).
Proof.
  intros Hfuel Hc Hsym.
  destruct fuel as [|fuel]; [lia|].
  destruct ls as [|L rest].
  - cbn [map join read_idents].
    change (skip_spaces ("objectid" ++ String c t))
      with ("objectid" ++ String c t)%string.
    rewrite read_ident_app by (reflexivity || exact Hc).
    change ("objectid" =? "") with false. cbv iota.
    rewrite Hsym. reflexivity.
  - assert (Hj : forall x y zs,
              join ", " (x :: y :: zs)
              = (x ++ ", " ++ join ", " (y :: zs))%string)
      by reflexivity.
    cbn [map]. rewrite Hj, !string_app_assoc.
    change (read_idents (S fuel) ("objectid" ++ ", " ++ ?X))
      with (let? (xs, r) := read_idents fuel (String " "%char X)
            in Some ("objectid" :: xs, r)).
    rewrite read_idents_space.
    change (master_column L :: map master_column rest)
      with (map master_column (L :: rest)).
    rewrite read_idents_columns;
      [reflexivity | cbn in Hfuel; lia | exact Hc | exact Hsym].
Qed.

Lemma string_length_app (a b : string) :
  String.length (a ++ b) = String.length a + String.length b.
Proof. induction a as [|x a IH]; cbn; [reflexivity | now rewrite IH]. Qed.

Lemma join_length sep (xs : list string) :
  Forall (fun x => 1 <= String.length x) xs ->
  length xs <= String.length (join sep xs).
Proof.
  induction 1 as [|x xs Hx Hxs IH]; [cbn; lia|].
  destruct xs as [|y ys]; [cbn [join length]; lia|].
  change (join sep (x :: y :: ys))
    with (x ++ sep ++ join sep (y :: ys))%string.
  rewrite !string_length_app. cbn [length] in *. lia.
Qed.

(** The pairs of a filter with their levels. *)
Lemma filter_of_levels row active :
  exists lvs : list (Level * string),
    filter_of row active
    = map (fun lv => (master_column (fst lv), snd lv)) lvs.
Proof.
  induction active as [|L ls [lvs IH]]; [exists []; reflexivity|].
  cbn [filter_of flat_map]. fold (filter_of row ls). rewrite IH.
  destruct (dict_get row (key_of L)) as [[v|]|].
  - exists ((L, v) :: lvs). reflexivity.
  - exists lvs. reflexivity.
  - exists lvs. reflexivity.
Qed.

(** The statement the resolver writes for a tuple, as the database reads
    it: the identifier and the master columns of the active levels, from
    [indonesia_boundaries], where every comparison of the tuple's filter
    holds. *)
Lemma read_lookup_sql row active :
  filter_of row active <> [] ->
  read_lookup (lookup_sql_of (select_columns_of (map key_of active))
                 (map render (filter_of row active)))
  = Some {| lk_select := "objectid" :: map master_column active;
            lk_table := "indonesia_boundaries";
            lk_where := filter_of row active |}.
Proof.
  intros Hne. rewrite select_columns_of_levels.
  destruct (filter_of_levels row active) as [lvs E].
  rewrite E in *. rewrite map_map.
  assert (Hlvs : lvs <> []) by (intros ->; apply Hne; reflexivity).
  unfold read_lookup.
  set (sql := lookup_sql_of _ _).
  assert (Hf1 : length active < String.length sql /\
                length lvs <= String.length sql).
  { unfold sql, lookup_sql_of. rewrite !string_length_app.
    pose proof (join_length ", " ("objectid" :: map master_column active))
      as H1.
    pose proof (join_length " AND "
                  (map (fun lv => render (master_column (fst lv), snd lv))
                       lvs)) as H2.
    cbn [length] in H1. rewrite !length_map in *.
    assert (length active < String.length
              (join ", " ("objectid" :: map master_column active))).
    { apply H1. constructor; [cbn; lia|].
      apply Forall_forall. intros x Hx. apply in_map_iff in Hx.
      destruct Hx as (L & <- & _). destruct L; cbn; lia. }
    assert (length lvs <= String.length
              (join " AND " (map (fun lv => render (master_column (fst lv),
                                                    snd lv)) lvs))).
    { apply H2. apply Forall_forall. intros x Hx. apply in_map_iff in Hx.
      destruct Hx as (lv & <- & _). unfold render, condition.
      rewrite !string_length_app. cbn. lia. }
    lia. }
  destruct Hf1 as [Hf1 Hf2]. revert Hf1 Hf2.
  generalize (String.length sql). intros fuel Hf1 Hf2.
  unfold sql, lookup_sql_of. clear sql.
  set (J2 := join " AND " _).
  set (tail2 := (nl ++ "        LIMIT 1" ++ nl ++ "        ")%string).
  set (tail1 := ("        FROM indonesia_boundaries" ++ nl
                 ++ "        WHERE " ++ J2 ++ tail2)%string).
  change (keyword "SELECT" (nl ++ "        SELECT " ++ ?X)%string)
    with (Some (String " "%char X)).
  cbv beta iota. rewrite read_idents_space.
  change (nl ++ tail1)%string with (String (ascii_of_nat 10) tail1).
  rewrite (read_idents_select active fuel (ascii_of_nat 10) tail1 Hf1
             eq_refl eq_refl).
  cbv beta iota.
  change (keyword "FROM" (String (ascii_of_nat 10) tail1))
    with (Some (" indonesia_boundaries" ++ nl ++ "        WHERE "
                ++ J2 ++ tail2)%string).
  cbv beta iota.
  change (read_ident (skip_spaces (" indonesia_boundaries" ++ nl
            ++ "        WHERE " ++ J2 ++ tail2)))
    with ("indonesia_boundaries", (nl ++ "        WHERE " ++ J2 ++ tail2)%string).
  cbv beta iota.
  change (keyword "WHERE" (nl ++ "        WHERE " ++ J2 ++ tail2))
    with (Some (String " "%char (J2 ++ tail2))).
  cbv beta iota. rewrite read_conjunction_space.
  unfold J2.
  rewrite (read_conjunction_render lvs fuel tail2 Hlvs Hf2 eq_refl).
  reflexivity.
Qed.


(* ===================================================================== *)
(** ** Results: one tuple of the resolution pass *)
(* ===================================================================== *)

Lemma logged_nil p : logged p [] [] = p.
Proof. destruct p; unfold logged; simpl; rewrite !app_nil_r; reflexivity. Qed.

Lemma conditions_of_all_null row columns :
  (forall col, In col columns -> row_get row col = None) ->
  conditions_of row columns = Some [].
Proof.
  induction columns as [|col rest IH]; intros H; [reflexivity|].
  cbn [conditions_of].
  assert (Hc : row_get row col = None) by (apply H; now left).
  unfold row_get in Hc.
  destruct (dict_get row col) as [[v|]|]; try discriminate;
    apply IH; intros c Hin; apply H; now right.
Qed.

(** C8: a tuple whose value is null (or absent) at every active level is
    passed over: the body of the loop returns the results unchanged and
    leaves the process as it was, so no statement is sent to the master and
    nothing is printed, and the loop goes on with the next tuple. *)
Theorem null_tuple_skipped :
  forall (w : World) (neon : handle) (columns select_columns : list string)
         (results : list (dict cell)) (row : dict cell) (rest : DataFrame)
         (p : Process),
    (forall col, In col columns -> row_get row col = None) ->
    lookup_row w neon columns select_columns results row p = (Ret results, p)
    /\ for_each (lookup_row w neon columns select_columns) (row :: rest)
         results p
       = for_each (lookup_row w neon columns select_columns) rest results p.
Proof.
  intros w neon columns sc results row rest p H.
  assert (E : lookup_row w neon columns sc results row p = (Ret results, p)).
  { unfold lookup_row. rewrite (conditions_of_all_null row columns H).
    reflexivity. }
  split; [exact E|].
  cbn [for_each]. unfold bind. rewrite E. reflexivity.
Qed.

Lemma null_tuple_skipped_witness :
  lookup_row world_all_ok 1 ["province"; "city"]
    ["objectid"; "provinsi"; "kota_kabupaten"] []
    [("province", None); ("city", None)] start = (Ret [], start).
Proof.
  refine (proj1 (null_tuple_skipped world_all_ok 1 ["province"; "city"]
                   ["objectid"; "provinsi"; "kota_kabupaten"] []
                   [("province", None); ("city", None)] [] start _)).
  intros col [<-|[<-|[]]]; reflexivity.
Defined.

Lemma lookup_row_miss (w : World) neon columns sc results row p c cs :
  conditions_of row columns = Some (c :: cs) ->
  fetchone w (sent p) (lookup_sql_of sc (c :: cs)) = Ok None ->
  lookup_row w neon columns sc results row p
  = (Ret results,
     logged p [warning_no_location row]
       [(neon, (lookup_sql_of sc (c :: cs), []))]).
Proof.
  intros Hc Hf. unfold lookup_row. rewrite Hc.
  unfold bind, history, send, ret, print; cbv beta iota. rewrite Hf. reflexivity.
Qed.

Lemma lookup_row_error (w : World) neon columns sc results row p c cs e :
  conditions_of row columns = Some (c :: cs) ->
  fetchone w (sent p) (lookup_sql_of sc (c :: cs)) = Raise e ->
  lookup_row w neon columns sc results row p
  = (Ret results,
     logged p (error_lookup_lines e (lookup_sql_of sc (c :: cs)))
       [(neon, (lookup_sql_of sc (c :: cs), []))]).
Proof.
  intros Hc Hf. unfold lookup_row. rewrite Hc.
  unfold bind, history, send, ret, print; cbv beta iota. rewrite Hf.
  unfold logged, error_lookup_lines; cbn [stdout conns sent geo_ref pending].
  rewrite <- app_assoc. reflexivity.
Qed.

Lemma lookup_row_hit (w : World) neon columns sc results row p c cs id others :
  conditions_of row columns = Some (c :: cs) ->
  fetchone w (sent p) (lookup_sql_of sc (c :: cs)) = Ok (Some (id :: others)) ->
  lookup_row w neon columns sc results row p
  = (Ret (results ++ [fill_result (id :: others) row 1 columns
                        [("location_id", id)]]),
     logged p [] [(neon, (lookup_sql_of sc (c :: cs), []))]).
Proof.
  intros Hc Hf. unfold lookup_row. rewrite Hc.
  unfold bind, history, send, ret, print; cbv beta iota. rewrite Hf.
  unfold logged; cbn [stdout conns sent geo_ref pending].
  rewrite app_nil_r. reflexivity.
Qed.

Lemma for_each_cons {A B} (body : B -> A -> M B) x xs acc p acc' p' :
  body acc x p = (Ret acc', p') ->
  for_each body (x :: xs) acc p = for_each body xs acc' p'.
Proof. intros H. cbn [for_each]. unfold bind. rewrite H. reflexivity. Qed.

Lemma dict_set_keeps {V} (d : dict V) k k' v :
  dict_get d k <> None -> dict_get (dict_set d k' v) k <> None.
Proof.
  induction d as [|[k0 v0] d IH]; intros H; [now elim H|].
  cbn [dict_set]. destruct (k0 =? k') eqn:E0; cbn [dict_get] in *.
  - destruct (k0 =? k); [discriminate | exact H].
  - destruct (k0 =? k); [discriminate | now apply IH].
Qed.

Lemma fill_result_has_id result row columns : forall i d,
  has_id d -> has_id (fill_result result row i columns d).
Proof.
  unfold has_id.
  induction columns as [|col rest IH]; intros i d H; [exact H|].
  cbn [fill_result]. apply IH. now apply dict_set_keeps.
Qed.


(** *** What the database answers *)

Lemma index_of_mem (x : string) (xs : list string) :
  mem x xs = true -> exists i, index_of x xs = Some i.
Proof.
  unfold mem. induction xs as [|y ys IH]; [discriminate|].
  cbn [existsb index_of]. rewrite (String.eqb_sym x y).
  destruct (y =? x); [eauto|]. cbn [orb]. intros H.
  destruct (IH H) as [i ->]. cbn. eauto.
Qed.

Lemma master_column_index (t : Table) (L : Level) :
  has_master_columns t = true ->
  exists i, index_of (master_column L) (tcolumns t) = Some i.
Proof.
  unfold has_master_columns. cbn [forallb]. intros H.
  repeat (apply andb_true_iff in H; destruct H as [? H]).
  destruct L; now apply index_of_mem.
Qed.

Lemma objectid_index (t : Table) :
  has_master_columns t = true ->
  exists i, index_of "objectid" (tcolumns t) = Some i.
Proof.
  unfold has_master_columns. cbn [forallb]. intros H.
  apply andb_true_iff in H. destruct H as [H _]. now apply index_of_mem.
Qed.

Lemma traverse_some {A B} (f : A -> option B) (g : A -> B) (xs : list A) :
  (forall x, In x xs -> f x = Some (g x)) ->
  traverse f xs = Some (map g xs).
Proof.
  induction xs as [|x xs IH]; intros H; [reflexivity|].
  cbn [traverse map]. rewrite (H x) by now left.
  rewrite IH by (intros y Hy; apply H; now right). reflexivity.
Qed.

Lemma find_ext {A} (f g : A -> bool) (xs : list A) :
  (forall x, f x = g x) -> find f xs = find g xs.
Proof.
  intros H. induction xs as [|x xs IH]; [reflexivity|].
  cbn [find]. rewrite H, IH. reflexivity.
Qed.

Lemma matchesb_spec LOWER t r row active :
  matchesb LOWER t r row active = true <-> matches LOWER t r row active.
Proof.
  unfold matchesb, matches. rewrite forallb_forall. split.
  - intros H L v HL Hv. specialize (H L HL). rewrite Hv in H.
    destruct (column_value t r (master_column L)) as [x|]; [|discriminate].
    exists x. split; [reflexivity|]. now apply String.eqb_eq.
  - intros H L HL.
    destruct (dict_get row (key_of L)) as [[v|]|] eqn:Hv; try reflexivity.
    destruct (H L v HL Hv) as (x & -> & Hx). now apply String.eqb_eq.
Qed.

(** The place the database finds for a column; [0] stands for a column the
    table lacks. *)
Lemma comparisons_decide LOWER t r row active :
  has_master_columns t = true ->
  forallb (comparison_true LOWER r)
    (map (fun c => (match index_of (fst c) (tcolumns t) with
                    | Some i => i | None => 0 end, snd c))
         (filter_of row active))
  = matchesb LOWER t r row active.
Proof.
  intros Ht. unfold matchesb.
  induction active as [|L ls IH]; [reflexivity|].
  cbn [filter_of flat_map forallb]. fold (filter_of row ls).
  rewrite map_app, forallb_app, IH. clear IH.
  destruct (dict_get row (key_of L)) as [[v|]|]; try reflexivity.
  cbn [map forallb fst snd]. rewrite andb_true_r.
  unfold comparison_true, column_value. cbn [fst snd].
  destruct (master_column_index t L Ht) as [i ->]. reflexivity.
Qed.

(** The answer to the statement written for a tuple: the first row of the
    master that matches it, as the identifier and the master columns of the
    active levels; no row when none matches. *)
Lemma master_answer_sql LOWER t row active :
  has_master_columns t = true ->
  filter_of row active <> [] ->
  master_answer LOWER t
    (lookup_sql_of (select_columns_of (map key_of active))
       (map render (filter_of row active)))
  = Ok (option_map
          (fun r => column_value t r "objectid"
                    :: map (fun L => column_value t r (master_column L))
                           active)
          (find (fun r => matchesb LOWER t r row active) (trows t))).
Proof.
  intros Ht Hne. unfold master_answer.
  rewrite (read_lookup_sql row active Hne).
  cbn [lk_select lk_table lk_where].
  change ("indonesia_boundaries" =? "indonesia_boundaries") with true.
  cbv iota.
  set (idx := fun c => match index_of c (tcolumns t) with
                       | Some i => i | None => 0 end).
  assert (Hidx : forall c, In c ("objectid" :: map master_column active) ->
                           index_of c (tcolumns t) = Some (idx c)).
  { intros c [<-|Hc].
    - unfold idx. destruct (objectid_index t Ht) as [i ->]. reflexivity.
    - apply in_map_iff in Hc. destruct Hc as (L & <- & _).
      unfold idx. destruct (master_column_index t L Ht) as [i ->].
      reflexivity. }
  rewrite (traverse_some _ idx _ Hidx).
  rewrite (traverse_some _ (fun c => (idx (fst c), snd c))).
  2:{ intros c Hc. destruct (filter_of_levels row active) as [lvs E].
      rewrite E in Hc. apply in_map_iff in Hc.
      destruct Hc as ([L v] & <- & _). cbn [fst snd]. unfold idx.
      destruct (master_column_index t L Ht) as [i ->]. reflexivity. }
  f_equal.
  rewrite (find_ext _ (fun r => matchesb LOWER t r row active))
    by (intros r; apply comparisons_decide; exact Ht).
  destruct (find _ (trows t)) as [r|]; [|reflexivity].
  cbn [option_map map]. f_equal. f_equal.
  - unfold column_value. rewrite (Hidx "objectid") by now left. reflexivity.
  - rewrite !map_map. apply map_ext_in. intros L HL.
    unfold column_value. rewrite (Hidx (master_column L)); [reflexivity|].
    right. now apply in_map.
Qed.

(** The body of the loop against a master that holds [t]. *)
Lemma lookup_row_master (w : World) LOWER t neon row active results p :
  has_master_columns t = true ->
  (forall h sql, fetchone w h sql = master_answer LOWER t sql) ->
  filter_of row active <> [] ->
  lookup_row w neon (map key_of active)
    (select_columns_of (map key_of active)) results row p
  = match find (fun r => matchesb LOWER t r row active) (trows t) with
    | Some r =>
        (Ret (results ++
              [fill_result
                 (column_value t r "objectid"
                  :: map (fun L => column_value t r (master_column L)) active)
                 row 1 (map key_of active)
                 [("location_id", column_value t r "objectid")]]),
         logged p []
           [(neon, (lookup_sql_of (select_columns_of (map key_of active))
                      (map render (filter_of row active)), []))])
    | None =>
        (Ret results,
         logged p [warning_no_location row]
           [(neon, (lookup_sql_of (select_columns_of (map key_of active))
                      (map render (filter_of row active)), []))])
    end.
Proof.
  intros Ht Hw Hne.
  pose proof (master_answer_sql LOWER t row active Ht Hne) as Ha.
  pose proof (conditions_of_levels row active) as Hc.
  destruct (filter_of row active) as [|c cs] eqn:E; [congruence|].
  cbn [map] in Hc, Ha |- *.
  destruct (find _ (trows t)) as [r|]; cbn [option_map] in Ha.
  - eapply lookup_row_hit; [exact Hc|]. rewrite Hw. exact Ha.
  - eapply lookup_row_miss; [exact Hc|]. rewrite Hw. exact Ha.
Qed.

Lemma lookup_row_sends (w : World) neon columns select_columns results row p
      c cs :
  conditions_of row columns = Some (c :: cs) ->
  sent (snd (lookup_row w neon columns select_columns results row p)) =
  sent p ++ [(neon, (lookup_sql_of select_columns (c :: cs), []))].
Proof.
  intros H. unfold lookup_row. rewrite H.
  unfold bind, history, send, ret, print; cbn.
  destruct (fetchone w (sent p) _) as [[[|o os]|]|e]; reflexivity.
Qed.

(** C2: for every tuple and every list of active levels, the conditions the
    resolver builds are, in order, one [LOWER(master column) =
    LOWER('value')] for exactly the active levels whose value in the tuple
    is not null (the value with its single quotes doubled); levels with a
    null value add nothing.  When there is a condition, the statement sent
    to the master is the SELECT of the identifier and the master columns
    from [indonesia_boundaries] whose WHERE clause is these conditions
    joined by AND, with LIMIT 1; a database reads this text as the
    conjunction of the comparisons of mapped column and tuple value.  So,
    against a master that holds a table [t] and lowers with any function
    [LOWER], the tuple resolves to a row of [t] whose mapped column, at
    every level where the tuple has a value, is not null and equals that
    value once both are lowered (whatever the row holds at the levels where
    the tuple is null), and it is reported as not found exactly when [t]
    has no such row.  In particular the tuple with province JAWA BARAT
    resolves to the master row whose provinsi is jawa barat. *)
Theorem lookup_filter_case_insensitive :
  forall (row : dict cell) (active : list Level),
    conditions_of row (map key_of active)
      = Some (map render (filter_of row active)) /\
    filter_of row active
      = map (fun L => (master_column L, fmt (row_get row (key_of L))))
            (filter (fun L => notna (row_get row (key_of L))) active) /\
    (forall c, In c (filter_of row active) ->
       render c = ("LOWER(" ++ fst c ++ ") = LOWER('"
                   ++ replace quote1 "''" (snd c) ++ "')")%string) /\
    (forall (w : World) neon results p,
       filter_of row active <> [] ->
       sent (snd (lookup_row w neon (map key_of active)
                    (select_columns_of (map key_of active)) results row p))
       = sent p ++
         [(neon,
           ((nl ++ "        SELECT "
             ++ join ", " ("objectid" :: map master_column active) ++ nl
             ++ "        FROM indonesia_boundaries" ++ nl
             ++ "        WHERE "
             ++ join " AND " (map render (filter_of row active)) ++ nl
             ++ "        LIMIT 1" ++ nl ++ "        ")%string, []))]) /\
    (filter_of row active <> [] ->
     read_lookup
       (nl ++ "        SELECT "
        ++ join ", " ("objectid" :: map master_column active) ++ nl
        ++ "        FROM indonesia_boundaries" ++ nl
        ++ "        WHERE "
        ++ join " AND " (map render (filter_of row active)) ++ nl
        ++ "        LIMIT 1" ++ nl ++ "        ")%string
     = Some {| lk_select := "objectid" :: map master_column active;
               lk_table := "indonesia_boundaries";
               lk_where := filter_of row active |}) /\
    (forall (w : World) (LOWER : string -> string) (t : Table)
            neon results p,
       has_master_columns t = true ->
       (forall h sql, fetchone w h sql = master_answer LOWER t sql) ->
       filter_of row active <> [] ->
       ((forall r, In r (trows t) -> ~ matches LOWER t r row active) ->
        lookup_row w neon (map key_of active)
          (select_columns_of (map key_of active)) results row p
        = (Ret results,
           logged p [warning_no_location row]
             [(neon, (lookup_sql_of (select_columns_of (map key_of active))
                        (map render (filter_of row active)), []))])) /\
       ((exists r, In r (trows t) /\ matches LOWER t r row active) ->
        exists r, In r (trows t) /\ matches LOWER t r row active /\
          lookup_row w neon (map key_of active)
            (select_columns_of (map key_of active)) results row p
          = (Ret (results ++
                  [fill_result
                     (column_value t r "objectid"
                      :: map (fun L => column_value t r (master_column L))
                             active)
                     row 1 (map key_of active)
                     [("location_id", column_value t r "objectid")]]),
             logged p []
               [(neon, (lookup_sql_of (select_columns_of (map key_of active))
                          (map render (filter_of row active)), []))]))) /\
    (forall LOWER : string -> string,
       LOWER "JAWA BARAT" = LOWER "jawa barat" ->
       fst (lookup_row (world_master LOWER table_jawa_barat) 1
              (map key_of [Province]) (select_columns_of (map key_of [Province]))
              [] [("province", Some "JAWA BARAT")] start)
       = Ret [ [("location_id", Some "3273");
                ("province", Some "jawa barat")] ]).
Proof.
  intros row active.
  split; [apply conditions_of_levels|].
  split; [apply filter_of_non_null|].
  split; [intros c _; reflexivity|].
  split; [|split; [|split]].
  - intros w neon results p Hne.
    destruct (filter_of row active) as [|c cs] eqn:E; [congruence|].
    erewrite lookup_row_sends
      by (rewrite conditions_of_levels, E; reflexivity).
    rewrite select_columns_of_levels. reflexivity.
  - intros Hne. pose proof (read_lookup_sql row active Hne) as H.
    rewrite select_columns_of_levels in H. exact H.
  - intros w LOWER t neon results p Ht Hw Hne.
    rewrite (lookup_row_master w LOWER t neon row active results p Ht Hw Hne).
    destruct (find (fun r => matchesb LOWER t r row active) (trows t))
      as [r|] eqn:F.
    + apply find_some in F. destruct F as [Hin Hm].
      apply matchesb_spec in Hm. split.
      * intros Hno. elim (Hno r Hin Hm).
      * intros _. exists r. auto.
    + split; [reflexivity|].
      intros (r & Hin & Hm). apply matchesb_spec in Hm.
      pose proof (find_none _ _ F r Hin) as Hf. cbv beta in Hf. congruence.
  - intros LOWER HL.
    rewrite (lookup_row_master (world_master LOWER table_jawa_barat) LOWER
               table_jawa_barat 1 [("province", Some "JAWA BARAT")]
               [Province] [] start eq_refl (fun _ _ => eq_refl))
      by discriminate.
    cbn [table_jawa_barat trows find matchesb forallb dict_get key_of].
    change ("province" =? "province") with true. cbv iota.
    change (column_value table_jawa_barat
              [Some "3273"; Some "jawa barat"; Some "kota bandung"; None;
               None]
              (master_column Province)) with (Some "jawa barat").
    rewrite HL, String.eqb_refl. reflexivity.
Qed.

Lemma lookup_filter_witness :
  exists r,
    In r (trows table_jawa_barat) /\
    matches lower table_jawa_barat r
      [("province", Some "JAWA BARAT"); ("city", None)] [Province; City] /\
    lookup_row (world_master lower table_jawa_barat) 1
      (map key_of [Province; City])
      (select_columns_of (map key_of [Province; City])) []
      [("province", Some "JAWA BARAT"); ("city", None)] start
    = (Ret ([] ++
            [fill_result
               (column_value table_jawa_barat r "objectid"
                :: map (fun L => column_value table_jawa_barat r
                                   (master_column L)) [Province; City])
               [("province", Some "JAWA BARAT"); ("city", None)] 1
               (map key_of [Province; City])
               [("location_id", column_value table_jawa_barat r "objectid")]]),
       logged start []
         [(1, (lookup_sql_of (select_columns_of (map key_of [Province; City]))
                 (map render
                    (filter_of [("province", Some "JAWA BARAT"); ("city", None)]
                       [Province; City])), []))]).
Proof.
  apply (proj2 (proj1 (proj2 (proj2 (proj2 (proj2 (proj2
           (lookup_filter_case_insensitive
              [("province", Some "JAWA BARAT"); ("city", None)]
              [Province; City]))))))
           (world_master lower table_jawa_barat) lower table_jawa_barat
           1 [] start eq_refl (fun _ _ => eq_refl)
           ltac:(discriminate))).
  exists [Some "3273"; Some "jawa barat"; Some "kota bandung"; None; None].
  split; [left; reflexivity|].
  apply matchesb_spec. reflexivity.
Defined.

(* ===================================================================== *)
(** ** Reasoning about a run *)
(* ===================================================================== *)

Lemma post_bind {A B} (m : M A) (f : A -> M B) p (Q : outcome B -> Process -> Prop) :
  post m p (fun o p' => match o with
                        | Ret a => post (f a) p' Q
                        | Exit c => Q (Exit c) p'
                        end) ->
  post (bind m f) p Q.
Proof. unfold post, bind. destruct (m p) as [[a|c] p']; auto. Qed.

Lemma post_weaken {A} (m : M A) p (Q Q' : outcome A -> Process -> Prop) :
  post m p Q -> (forall o p', Q o p' -> Q' o p') -> post m p Q'.
Proof. unfold post; auto. Qed.

Lemma post_eq {A} (m : M A) p o p' (Q : outcome A -> Process -> Prop) :
  m p = (o, p') -> Q o p' -> post m p Q.
Proof. unfold post. intros ->. auto. Qed.

Lemma grows_refl p : grows p p.
Proof.
  split; [exists []; now rewrite app_nil_r|].
  exists []; split; [now rewrite app_nil_r | constructor].
Qed.

Lemma grows_trans p q r : grows p q -> grows q r -> grows p r.
Proof.
  intros [[o1 H1] (s1 & S1 & F1)] [[o2 H2] (s2 & S2 & F2)]. split.
  - exists (o1 ++ o2). rewrite H2, H1, app_assoc. reflexivity.
  - exists (s1 ++ s2). split; [rewrite S2, S1, app_assoc; reflexivity|].
    apply Forall_app; auto.
Qed.

Lemma quiet_refl p : quiet p p.
Proof. repeat split; auto; apply grows_refl. Qed.

Lemma quiet_trans p q r : quiet p q -> quiet q r -> quiet p r.
Proof.
  intros (C1 & G1 & P1 & W1) (C2 & G2 & P2 & W2).
  repeat split; try congruence; eapply grows_trans; eauto.
Qed.

Lemma quiet_printed p out : quiet p (printed p out).
Proof.
  repeat split; cbn; eauto.
  exists []. split; [now rewrite app_nil_r | constructor].
Qed.

Lemma quiet_logged p out h stmts :
  plain_on h stmts -> quiet p (logged p out stmts).
Proof.
  intros H. repeat split; cbn; eauto.
  exists stmts. split; [reflexivity|].
  eapply Forall_impl; [|exact H]. now intros x [_ Hx].
Qed.

Lemma print_eq line p : print line p = (Ret tt, printed p [line]).
Proof. reflexivity. Qed.

(** A suffix of a list grown by appending. *)
Ltac solve_suffix :=
  first [ exists []; symmetry; apply app_nil_r
        | eexists; rewrite <- ?app_assoc; reflexivity ].

(** [quiet p p'] for a [p'] built from [p] by printing and sending. *)
Ltac solve_quiet :=
  unfold quiet, grows, printed, logged;
  cbn [stdout conns sent geo_ref pending];
  repeat split; try reflexivity;
  [ solve_suffix
  | first [ exists []; split; [symmetry; apply app_nil_r | constructor]
          | eexists; split; [rewrite <- ?app_assoc; reflexivity
                            | repeat constructor] ] ].

(* ===================================================================== *)
(** ** Results: connect_to_db and fetch_distinct_locations *)
(* ===================================================================== *)

Lemma connect_to_db_post (w : World) uri info p :
  post (connect_to_db w uri info) p (fun o p' =>
    (o = Ret (length (conns p)) /\ p' = opened p) \/
    (o = Exit 1%Z /\ quiet p p' /\
     ((truthy uri = false /\ info = None) \/
      exists params e, psycopg2_connect w params = Raise e))).
Proof.
  unfold post, connect_to_db.
  destruct (truthy uri) eqn:Eu.
  - destruct (psycopg2_connect w (ByUri (fmt uri))) as [u|e] eqn:Ec.
    + left. split; reflexivity.
    + right. cbn. split; [reflexivity|]. split; [solve_quiet|].
      right. eauto.
  - destruct info as [info|].
    + destruct (psycopg2_connect w (ByInfo info)) as [u|e] eqn:Ec.
      * left. split; reflexivity.
      * right. cbn. split; [reflexivity|]. split; [solve_quiet|].
        right. eauto.
    + right. cbn. split; [reflexivity|]. split; [solve_quiet|].
      left. split; reflexivity.
Qed.

Lemma known_key L : known (key_of L).
Proof. destruct L; split; cbn; congruence. Qed.

Lemma add_static_known av name v acc :
  known name -> Forall known (snd acc) ->
  Forall known (snd (add_static av name v acc)).
Proof.
  intros Hn H. unfold add_static. destruct acc as [df cols].
  destruct (truthy v && negb (mem name av))%bool; cbn [snd] in *; auto.
  apply Forall_app. split; auto.
Qed.

Lemma filter_known (f : string * cell -> bool) l :
  Forall known (map fst l) -> Forall known (map fst (filter f l)).
Proof.
  induction l as [|x l IH]; intros H; [constructor|].
  inversion H; subst. cbn [filter]. destruct (f x); cbn [map]; auto.
Qed.

Lemma known_snd (x : DataFrame * list string) :
  Forall known (snd x) -> let (_, cols) := x in Forall known cols.
Proof. destruct x; auto. Qed.

Lemma fetch_post (w : World) conn ft pc cc dc sc pv cv dv sv p :
  post (fetch_distinct_locations w conn ft pc cc dc sc pv cv dv sv) p
    (fun o p' =>
       quiet p p' /\
       match o with
       | Ret (df, cols) => Forall known cols
       | Exit c =>
           c = 1%Z /\
           ((truthy pc = false /\ truthy cc = false /\ truthy dc = false /\
             truthy sc = false /\
             any [truthy pv; truthy cv; truthy dv; truthy sv] = false) \/
            exists h sql e, pd_read_sql w h sql = Raise e)
       end).
Proof.
  unfold fetch_distinct_locations.
  set (given := filter (fun cv0 : string * cell => truthy (snd cv0)) _).
  assert (Hk : Forall known (map fst given)).
  { apply filter_known. cbn [map fst].
    repeat constructor; try (cbn; congruence). }
  assert (Hnil : given = [] ->
            truthy pc = false /\ truthy cc = false /\ truthy dc = false /\
            truthy sc = false).
  { subst given. cbn [filter snd].
    destruct (truthy pc), (truthy cc), (truthy dc), (truthy sc);
      intros H; try discriminate; auto. }
  destruct given as [|g gs] eqn:EG; cbn [map].
  - destruct (any [truthy pv; truthy cv; truthy dv; truthy sv]) eqn:EA;
      cbn [negb].
    + unfold post, bind, ret, history, send. cbv beta iota.
      destruct (pd_read_sql w (sent p) _) as [df|e] eqn:ER.
      * cbn [fst snd]. split.
        { solve_quiet. }
        apply known_snd.
        repeat apply add_static_known; try (split; cbn; congruence).
        constructor.
      * cbn. split.
        { solve_quiet. }
        split; [reflexivity|]. right. eauto.
    + unfold post, bind, ret, history, send, print, sys_exit.
      cbv beta iota. cbn [fst snd]. split; [solve_quiet|].
      split; [reflexivity|]. left. destruct (Hnil eq_refl) as (?&?&?&?).
      auto 6.
  - unfold post, bind, ret, history, send. cbv beta iota.
    destruct (pd_read_sql w (sent p) _) as [df|e] eqn:ER.
    + cbn [fst snd]. split.
      { solve_quiet. }
      apply known_snd.
      repeat apply add_static_known; try (split; cbn; congruence).
      exact Hk.
    + cbn. split.
      { solve_quiet. }
      split; [reflexivity|]. right. eauto.
Qed.

(** C3: when no level is supplied as a column and at least one level has a
    static value, and the probe of the fact table succeeds (whatever rows it
    returns, so in particular for a non-empty table), extraction returns
    exactly one tuple; the tuple holds the configured static value at every
    level that has one and null elsewhere, and the returned active levels
    are the levels with a static value, in hierarchy order.  Nothing is
    printed and the only statement sent is the probe. *)
Theorem static_only_extraction :
  forall (w : World) (conn : handle) (ft : string) (col val : Level -> cell)
         (p : Process) (rows : DataFrame),
    (forall L, truthy (col L) = false) ->
    (exists L, truthy (val L) = true) ->
    pd_read_sql w (sent p) (probe_sql ft) = Ok rows ->
    fetch_by_level w conn ft col val p
    = (Ret ([ map (fun L => (key_of L, static (val L))) levels ],
            map key_of (filter (fun L => truthy (val L)) levels)),
       logged p [] [(conn, (probe_sql ft, []))])
    /\ (forall L, truthy (val L) = true ->
          row_get (map (fun L => (key_of L, static (val L))) levels)
                  (key_of L) = val L).
Proof.
  intros w conn ft col val p rows Hcol [L0 HL0] Hread.
  split.
  - unfold fetch_by_level, fetch_distinct_locations.
    cbn [filter snd]. rewrite !Hcol. cbn [map].
    assert (HA : any [truthy (val Province); truthy (val City);
                      truthy (val District); truthy (val SubDistrict)]
                 = true).
    { unfold any; cbn [existsb]. destruct L0; rewrite HL0;
        rewrite ?orb_true_r; reflexivity. }
    rewrite HA. cbn [negb].
    unfold bind, ret, history, send. cbv beta iota.
    fold (probe_sql ft). rewrite Hread.
    unfold logged, static, levels, add_static. cbn [map filter key_of].
    rewrite app_nil_r.
    destruct (truthy (val Province)), (truthy (val City)),
      (truthy (val District)), (truthy (val SubDistrict)); reflexivity.
  - intros L HL. unfold static, levels. cbn [map].
    destruct L; cbn; rewrite HL; reflexivity.
Qed.

Lemma static_only_extraction_witness :
  fetch_by_level world_probe 0 "sales" (fun _ => None)
    (fun L => match L with Province => Some "Bali" | _ => None end) start
  = (Ret ([ [ ("province", Some "Bali"); ("city", None); ("district", None);
              ("sub_district", None) ] ], ["province"]),
     logged start [] [(0, (probe_sql "sales", []))]).
Proof.
  refine (proj1 (static_only_extraction world_probe 0 "sales" (fun _ => None)
            (fun L => match L with Province => Some "Bali" | _ => None end)
            start [ [("?column?", Some "1")] ] _ _ _)).
  - reflexivity.
  - exists Province. reflexivity.
  - reflexivity.
Defined.

Lemma dict_get_set_other {V} (d : dict V) k k' v :
  (k' =? k) = false -> dict_get (dict_set d k' v) k = dict_get d k.
Proof.
  intros H. induction d as [|[k0 v0] d IH]; cbn [dict_set dict_get].
  - rewrite H. reflexivity.
  - destruct (k0 =? k') eqn:E0; cbn [dict_get].
    + apply String.eqb_eq in E0; subst k0. rewrite H. reflexivity.
    + rewrite IH. reflexivity.
Qed.

Lemma add_static_skip av name v acc :
  mem name av = true -> add_static av name v acc = acc.
Proof.
  intros H. unfold add_static. destruct acc as [df cols].
  rewrite H. cbn [negb]. rewrite andb_false_r. reflexivity.
Qed.

(** A static value written for one level leaves the other levels' values. *)
Lemma add_static_other av name v acc k :
  (name =? k) = false ->
  map (fun r => row_get r k) (fst (add_static av name v acc))
  = map (fun r => row_get r k) (fst acc).
Proof.
  intros H. unfold add_static. destruct acc as [df cols].
  destruct (truthy v && negb (mem name av))%bool; cbn [fst]; [|reflexivity].
  unfold df_assign. rewrite map_map. apply map_ext. intros r.
  unfold row_get. rewrite dict_get_set_other by exact H. reflexivity.
Qed.

Lemma add_static_same_or_other av name v acc k :
  mem k av = true ->
  map (fun r => row_get r k) (fst (add_static av name v acc))
  = map (fun r => row_get r k) (fst acc).
Proof.
  intros H. destruct (name =? k) eqn:E.
  - apply String.eqb_eq in E; subst name. rewrite add_static_skip by exact H.
    reflexivity.
  - apply add_static_other; exact E.
Qed.

(** A level supplied as a column is among the available columns. *)
Lemma column_available (col : Level -> cell) L :
  truthy (col L) = true ->
  mem (key_of L)
    (map fst (filter (fun cv : string * cell => truthy (snd cv))
       [ ("province", col Province); ("city", col City);
         ("district", col District); ("sub_district", col SubDistrict) ]))
  = true.
Proof.
  intros H. cbn [filter snd].
  destruct L; rewrite H;
    destruct (truthy (col Province)), (truthy (col City)),
      (truthy (col District)), (truthy (col SubDistrict));
    try discriminate; reflexivity.
Qed.

Lemma fetch_ignores_static (w : World) conn ft (col val val' : Level -> cell)
      L p :
  truthy (col L) = true ->
  (forall L', L' <> L -> val' L' = val L') ->
  fetch_by_level w conn ft col val p = fetch_by_level w conn ft col val' p.
Proof.
  intros HL Hval. unfold fetch_by_level, fetch_distinct_locations.
  pose proof (column_available col L HL) as Hmem.
  set (given := filter (fun cv : string * cell => truthy (snd cv)) _) in *.
  destruct given as [|g gs] eqn:EG; [discriminate Hmem|].
  cbn [map]. cbn [map] in Hmem.
  unfold bind, ret, history, send. cbv beta iota.
  destruct (pd_read_sql w (sent p) _) as [df|e]; [|reflexivity].
  destruct L; cbn [key_of] in Hmem;
    rewrite ?(Hval Province), ?(Hval City), ?(Hval District),
      ?(Hval SubDistrict) by discriminate;
    rewrite ?(add_static_skip _ _ _ _ Hmem); reflexivity.
Qed.

Lemma fetch_keeps_column_values (w : World) conn ft (col val : Level -> cell)
      L p :
  truthy (col L) = true ->
  post (fetch_by_level w conn ft col val) p (fun o p' =>
    match o with
    | Ret (df', cols) =>
        stdout p' = stdout p /\
        exists sql df,
          sent p' = sent p ++ [(conn, (sql, []))] /\
          pd_read_sql w (sent p) sql = Ok df /\
          map (fun r => row_get r (key_of L)) df'
          = map (fun r => row_get r (key_of L)) df
    | Exit _ => True
    end).
Proof.
  intros HL. unfold fetch_by_level, fetch_distinct_locations.
  pose proof (column_available col L HL) as Hmem.
  set (given := filter (fun cv : string * cell => truthy (snd cv)) _) in *.
  destruct given as [|g gs] eqn:EG; [discriminate Hmem|].
  cbn [map]. cbn [map] in Hmem.
  unfold post, bind, ret, history, send. cbv beta iota.
  destruct (pd_read_sql w (sent p) _) as [df|e] eqn:ER; [|exact I].
  cbn [fst snd].
  match goal with
  | |- let (_, _) := ?X in _ =>
      assert (Hv : map (fun r => row_get r (key_of L)) (fst X)
                   = map (fun r => row_get r (key_of L)) df);
      [| destruct X as [df' cols]; cbn [fst] in Hv ]
  end.
  { rewrite !add_static_same_or_other by exact Hmem. reflexivity. }
  cbn [stdout sent]. split; [reflexivity|].
  eexists; exists df. split; [reflexivity|]. split; [exact ER | exact Hv].
Qed.

(** C7: when a level has both a column and a static value, extraction does
    exactly what it does without the static value (same statement, same
    frame, same active levels, same output, same exit), whatever the static
    value is; when extraction returns, the frame holds at that level, row
    by row, the values the query on the fact table returned, and nothing
    has been printed: no warning about the conflict. *)
Theorem column_overrides_static :
  forall (w : World) (conn : handle) (ft : string)
         (col val val' : Level -> cell) (L : Level) (p : Process),
    truthy (col L) = true ->
    (forall L', L' <> L -> val' L' = val L') ->
    fetch_by_level w conn ft col val p = fetch_by_level w conn ft col val' p
    /\ post (fetch_by_level w conn ft col val) p (fun o p' =>
         match o with
         | Ret (df', cols) =>
             stdout p' = stdout p /\
             exists sql df,
               sent p' = sent p ++ [(conn, (sql, []))] /\
               pd_read_sql w (sent p) sql = Ok df /\
               map (fun r => row_get r (key_of L)) df'
               = map (fun r => row_get r (key_of L)) df
         | Exit _ => True
         end).
Proof.
  intros w conn ft col val val' L p HL Hval. split.
  - exact (fetch_ignores_static w conn ft col val val' L p HL Hval).
  - exact (fetch_keeps_column_values w conn ft col val L p HL).
Qed.

Lemma column_overrides_static_witness :
  fetch_by_level world_two_cities 0 "sales"
    (fun L => match L with City => Some "kota" | _ => None end)
    (fun L => match L with
              | Province => Some "Jawa Barat"
              | City => Some "Bogor"
              | _ => None
              end) start
  = fetch_by_level world_two_cities 0 "sales"
      (fun L => match L with City => Some "kota" | _ => None end)
      (fun L => match L with Province => Some "Jawa Barat" | _ => None end)
      start
  /\ fst (fetch_by_level world_two_cities 0 "sales"
            (fun L => match L with City => Some "kota" | _ => None end)
            (fun L => match L with
                      | Province => Some "Jawa Barat"
                      | City => Some "Bogor"
                      | _ => None
                      end) start)
     = Ret ([ [("city", Some "Bandung"); ("province", Some "Jawa Barat")];
              [("city", Some "Jakarta"); ("province", Some "Jawa Barat")] ],
            ["city"; "province"]).
Proof.
  split; [|reflexivity].
  refine (proj1 (column_overrides_static world_two_cities 0 "sales"
            (fun L => match L with City => Some "kota" | _ => None end)
            (fun L => match L with
                      | Province => Some "Jawa Barat"
                      | City => Some "Bogor"
                      | _ => None
                      end)
            (fun L => match L with Province => Some "Jawa Barat" | _ => None end)
            City start _ _)).
  - reflexivity.
  - intros [] H; try reflexivity. now elim H.
Defined.

(* ===================================================================== *)
(** ** Results: the resolution pass *)
(* ===================================================================== *)

Lemma conditions_of_known row columns :
  Forall known columns -> exists cs, conditions_of row columns = Some cs.
Proof.
  induction 1 as [|col rest [Hk _] _ [cs IH]]; [now exists []|].
  cbn [conditions_of].
  destruct (dict_get row col) as [[v|]|]; try (now exists cs).
  destruct (dict_get column_mapping col) as [db|]; [|now elim Hk].
  rewrite IH. eauto.
Qed.

Lemma lookup_row_post (w : World) neon columns sc results row p :
  Forall known columns -> Forall has_id results ->
  post (lookup_row w neon columns sc results row) p (fun o p' =>
    quiet p p' /\ exists r, o = Ret r /\ Forall has_id r).
Proof.
  intros Hk Hid. destruct (conditions_of_known row columns Hk) as [[|c cs] Hc].
  - unfold post, lookup_row. rewrite Hc. cbn.
    split; [apply quiet_refl | eauto].
  - destruct (fetchone w (sent p) (lookup_sql_of sc (c :: cs)))
      as [[[|id others]|]|e] eqn:Hf.
    + unfold post, lookup_row. rewrite Hc.
      unfold bind, history, send, ret, print; cbv beta iota. rewrite Hf.
      cbn [fst snd]. split; [solve_quiet | eauto].
    + unfold post. rewrite (lookup_row_hit _ _ _ _ _ _ _ _ _ _ _ Hc Hf). cbn [fst snd].
      split; [solve_quiet|]. eexists; split; [reflexivity|].
      apply Forall_app; split; [exact Hid|]. constructor; [|constructor].
      apply fill_result_has_id. unfold has_id. cbn. discriminate.
    + unfold post. rewrite (lookup_row_miss _ _ _ _ _ _ _ _ _ Hc Hf). cbn [fst snd].
      split; [solve_quiet | eauto].
    + unfold post. rewrite (lookup_row_error _ _ _ _ _ _ _ _ _ _ Hc Hf). cbn [fst snd].
      split; [solve_quiet | eauto].
Qed.

Lemma lookup_rows_post (w : World) neon columns sc rows : forall results p,
  Forall known columns -> Forall has_id results ->
  post (for_each (lookup_row w neon columns sc) rows results) p (fun o p' =>
    quiet p p' /\ exists r, o = Ret r /\ Forall has_id r).
Proof.
  induction rows as [|row rest IH]; intros results p Hk Hid.
  - unfold post; cbn. split; [apply quiet_refl | eauto].
  - cbn [for_each]. apply post_bind.
    eapply post_weaken; [apply lookup_row_post; assumption|].
    intros o p1 (Hq & r & -> & Hr).
    eapply post_weaken; [apply IH; assumption|].
    intros o' p2 (Hq' & r' & -> & Hr').
    split; [eapply quiet_trans; eassumption | eauto].
Qed.

Lemma set_nth_last {A} (l : list A) x y :
  set_nth (length l) y (l ++ [x]) = l ++ [y].
Proof. induction l as [|a l IH]; cbn; [reflexivity | now rewrite IH]. Qed.

Lemma lookup_location_ids_post (w : World) df columns p :
  Forall known columns ->
  post (lookup_location_ids w df columns) p (fun o p' =>
    (exists r, o = Ret (r, select_columns_of columns) /\ Forall has_id r /\
               conns p' = conns p ++ [Closed] /\ geo_ref p' = geo_ref p /\
               pending p' = pending p /\ grows p p') \/
    (o = Exit 1%Z /\ quiet p p' /\
     (truthy (environ_MASTER_DB_URI w) = false \/
      exists params e, psycopg2_connect w params = Raise e))).
Proof.
  intros Hk. unfold lookup_location_ids. apply post_bind.
  eapply post_weaken; [apply connect_to_db_post|].
  intros o p1 [[-> ->]|(-> & Hq & Hwhy)].
  - apply post_bind.
    eapply post_weaken;
      [apply lookup_rows_post; [exact Hk | constructor]|].
    intros o p2 ((Hc & Hg & Hp & Hgr) & r & -> & Hr).
    unfold post, bind, close, ret; cbn [fst snd]. left.
    exists r. split; [reflexivity|]. split; [exact Hr|].
    unfold opened in *. cbn [stdout conns sent geo_ref pending] in *.
    rewrite Hc, set_nth_last. repeat split; auto.
    + destruct Hgr as [Ho _]. exact Ho.
    + destruct Hgr as [_ Hs]. exact Hs.
  - right. split; [reflexivity|]. split; [exact Hq|].
    destruct Hwhy as [[Hu _]|Hc]; auto.
Qed.

(* ===================================================================== *)
(** ** Results: create_geo_ref_table and insert_into_geo_ref *)
(* ===================================================================== *)

Lemma create_geo_ref_table_post (w : World) conn args p :
  post (create_geo_ref_table w conn args) p (fun o p' =>
    conns p' = conns p /\ grows p p' /\
    ((o = Ret tt /\ geo_ref p' = geo_ref p ++ pending p /\ pending p' = []) \/
     (o = Exit 1%Z /\ geo_ref p' = geo_ref p /\ pending p' = pending p /\
      ((exists h st e, execute w h st = Raise e) \/
       (exists h e, commit w h = Raise e))))).
Proof.
  unfold post, create_geo_ref_table.
  unfold bind, history, send, ret, print, do_commit, sys_exit.
  cbv beta iota.
  destruct (execute w (sent p) _) as [u|e] eqn:Ex.
  - cbn [sent].
    destruct (commit w _) as [u'|e] eqn:Ec; cbn [fst snd].
    + split; [reflexivity|]. split.
      { unfold grows; cbn [stdout sent]. split; [solve_suffix|].
        eexists; split; [reflexivity | repeat constructor]. }
      left. repeat split.
    + split; [reflexivity|]. split.
      { unfold grows; cbn [stdout sent]. split; [solve_suffix|].
        eexists; split; [reflexivity | repeat constructor]. }
      right. repeat split. right. eauto.
  - cbn [fst snd]. split; [reflexivity|]. split.
    { unfold grows; cbn [stdout sent]. split; [solve_suffix|].
      eexists; split; [reflexivity | repeat constructor]. }
    right. repeat split. left. eauto.
Qed.

Lemma inserts_ok_nil (w : World) : inserts_ok w [].
Proof. intros [|x pre] h st post H; discriminate. Qed.

Lemma inserts_ok_not_failed (w : World) log :
  inserts_ok w log -> insert_failed_in w log -> False.
Proof.
  intros Hok (pre & h & st & post & e & Hlog & Hne & Hraise).
  destruct (Hok pre h st post Hlog Hne) as [u Hu]. congruence.
Qed.

(** Where an element of [l1 ++ l2] lies. *)
Lemma app_split_at {A} (l1 l2 pre post : list A) x :
  l1 ++ l2 = pre ++ x :: post ->
  (exists post', l1 = pre ++ x :: post' /\ post = post' ++ l2) \/
  (exists pre', pre = l1 ++ pre' /\ l2 = pre' ++ x :: post).
Proof.
  intros H. apply app_eq_app in H. destruct H as [l [[H1 H2]|[H1 H2]]].
  - destruct l as [|y l].
    + right. exists []. rewrite app_nil_r in H1. subst. 
      rewrite app_nil_r. split; [reflexivity | exact (eq_sym H2)].
    + left. cbn in H2. injection H2 as -> ->. exists l. split; auto.
  - right. exists l. auto.
Qed.

Lemma inserts_ok_plain (w : World) log stmts :
  inserts_ok w log -> Forall (fun x => snd (snd x) = []) stmts ->
  inserts_ok w (log ++ stmts).
Proof.
  intros Hok Hp pre h st post H Hne.
  apply app_split_at in H. destruct H as [(post' & H1 & _)|(pre' & _ & H2)].
  - exact (Hok pre h st post' H1 Hne).
  - rewrite Forall_forall in Hp.
    assert (Hin : In (h, st) stmts) by (rewrite H2; apply in_elt).
    specialize (Hp _ Hin). cbn in Hp. contradiction.
Qed.

Lemma inserts_ok_grows (w : World) p p' :
  inserts_ok w (sent p) -> grows p p' -> inserts_ok w (sent p').
Proof.
  intros Hok [_ (stmts & -> & Hp)]. now apply inserts_ok_plain.
Qed.

Lemma inserts_ok_snoc (w : World) log h st u :
  inserts_ok w log -> execute w log st = Ok u ->
  inserts_ok w (log ++ [(h, st)]).
Proof.
  intros Hok Hex pre h0 st0 post H Hne.
  apply app_split_at in H. destruct H as [(post' & H1 & _)|(pre' & H1 & H2)].
  - exact (Hok pre h0 st0 post' H1 Hne).
  - destruct pre' as [|y pre'].
    + cbn in H2. inversion H2; subst.
      rewrite app_nil_r. eauto.
    + cbn in H2. injection H2 as _ H2. destruct pre'; discriminate.
Qed.

Lemma insert_loop_post (w : World) conn sql args locs : forall values p,
  inserts_ok w (sent p) ->
  post (insert_loop w conn sql args locs values) p (fun o p' =>
    conns p' = conns p /\ geo_ref p' = geo_ref p /\ stdout p' = stdout p /\
    ((exists v', o = Ret (Ok tt, v') /\
        (values <> None \/ locs <> [] -> v' <> None) /\
        pending p' = pending p ++ map (geo_ref_row args) locs /\
        inserts_ok w (sent p')) \/
     (exists e vs, o = Ret (Raise e, Some vs) /\
        insert_failed_in w (sent p')) \/
     (exists e v', o = Ret (Raise e, v') /\ inserts_ok w (sent p') /\
        ~ Forall has_id locs /\
        (v' = None -> values = None /\ pending p' = pending p)))).
Proof.
  induction locs as [|loc rest IH]; intros values p Hok.
  - unfold post; cbn [insert_loop ret fst snd].
    split; [reflexivity|]. split; [reflexivity|]. split; [reflexivity|].
    left. exists values. rewrite app_nil_r.
    split; [reflexivity|]. split; [|split; [reflexivity | exact Hok]].
    intros [H|H]; [exact H | now elim H].
  - cbn [insert_loop].
    destruct (dict_get loc "location_id") as [id|] eqn:Hid.
    + unfold post, bind, history, send. cbv beta iota.
      destruct (execute w (sent p) (sql, id :: level_values args loc))
        as [u|e] eqn:Hex.
      * unfold add_pending. cbv beta iota.
        cbn [stdout conns sent geo_ref pending].
        match goal with
        | |- context [insert_loop w conn sql args rest ?v ?q] =>
            specialize (IH v q)
        end.
        cbn [sent] in IH.
        specialize (IH (inserts_ok_snoc w _ conn _ u Hok Hex)).
        unfold post in IH. cbn [stdout conns sent geo_ref pending] in IH.
        destruct IH as (Hc & Hg & Ho & IH).
        split; [exact Hc|]. split; [exact Hg|]. split; [exact Ho|].
        destruct IH as [(v' & Hv & Hsome & Hp & Hok')|[(e & vs & Hv & Hf)
                        |(e & v' & Hv & Hok' & Hno & Hnone)]].
        -- left. exists v'. split; [exact Hv|].
           split; [intros _; apply Hsome; left; discriminate|].
           split; [|exact Hok'].
           rewrite Hp, <- app_assoc. cbn [map app]. unfold geo_ref_row, row_get.
           rewrite Hid. reflexivity.
        -- right; left. eauto.
        -- right; right. exists e, v'. split; [exact Hv|].
           split; [exact Hok'|].
           split; [intros HF; apply Hno; now inversion HF|].
           intros Hn. destruct (Hnone Hn) as [Habs _]. discriminate.
      * cbn [fst snd stdout conns sent geo_ref pending].
        split; [reflexivity|]. split; [reflexivity|]. split; [reflexivity|].
        right; left. exists e, (id :: level_values args loc).
        split; [reflexivity|].
        exists (sent p), conn, (sql, id :: level_values args loc), [], e.
        split; [reflexivity|]. split; [cbn; discriminate | exact Hex].
    + unfold post; cbn [ret fst snd].
      split; [reflexivity|]. split; [reflexivity|]. split; [reflexivity|].
      right; right.
      exists "'location_id'", values. split; [reflexivity|].
      split; [exact Hok|].
      split; [intros HF; inversion HF as [|? ? H1 _]; subst; now apply H1|].
      auto.
Qed.

Lemma insert_into_geo_ref_post (w : World) conn locs sc args p :
  inserts_ok w (sent p) ->
  post (insert_into_geo_ref w conn locs sc args) p (fun o p' =>
    conns p' = conns p /\
    ((o = Ret tt /\ inserts_ok w (sent p') /\
      ((locs = [] /\ geo_ref p' = geo_ref p /\ pending p' = pending p) \/
       (locs <> [] /\ pending p' = [] /\
        geo_ref p' = geo_ref p ++ pending p ++ map (geo_ref_row args) locs)))
     \/
     (o = Exit 1%Z /\ geo_ref p' = geo_ref p /\
      (pending p' = [] \/ pending p' = pending p) /\
      (insert_failed_in w (sent p') -> pending p' = []) /\
      ((exists h st e, execute w h st = Raise e) \/
       (exists h e, commit w h = Raise e) \/
       ~ Forall has_id locs)))).
Proof.
  intros Hok. unfold insert_into_geo_ref.
  destruct locs as [|loc rest].
  - unfold post; cbn [print fst snd stdout conns sent geo_ref pending].
    split; [reflexivity|]. left. split; [reflexivity|].
    split; [exact Hok|]. left. auto.
  - set (locs := loc :: rest).
    apply post_bind.
    eapply post_weaken; [apply (insert_loop_post w conn _ args locs None p Hok)|].
    intros o p1 (Hc & Hg & Ho & H).
    destruct H as [(v' & -> & Hsome & Hp & Hok1)|[(e & vs & -> & Hf)
                   |(e & v' & -> & Hok1 & Hno & Hnone)]].
    + (* every INSERT succeeded *)
      unfold post, bind, history. cbv beta iota.
      destruct (commit w (sent p1)) as [u|e] eqn:Ecommit.
      * unfold do_commit, print. cbv beta iota.
        cbn [fst snd stdout conns sent geo_ref pending].
        split; [exact Hc|]. left. split; [reflexivity|].
        split; [exact Hok1|]. right.
        split; [discriminate|]. split; [reflexivity|].
        rewrite Hg, Hp, app_assoc. reflexivity.
      * destruct v' as [vs|]; [|elim Hsome; [right; discriminate | reflexivity]].
        unfold insert_failed, bind, print, rollback, sys_exit. cbv beta iota.
        cbn [fst snd stdout conns sent geo_ref pending].
        split; [exact Hc|]. right. split; [reflexivity|].
        split; [exact Hg|]. split; [now left|]. split; [reflexivity|].
        right; left. eauto.
    + (* an INSERT raised *)
      unfold post, insert_failed, bind, print, rollback, sys_exit.
      cbv beta iota. cbn [fst snd stdout conns sent geo_ref pending].
      split; [exact Hc|]. right. split; [reflexivity|].
      split; [exact Hg|]. split; [now left|]. split; [reflexivity|].
      left. destruct Hf as (pre & h & st & post0 & e' & _ & _ & Hr). eauto.
    + (* a location without identifier *)
      unfold post, insert_failed, bind, print, rollback, sys_exit.
      cbv beta iota.
      destruct v' as [vs|]; cbv beta iota;
        cbn [fst snd stdout conns sent geo_ref pending].
      * split; [exact Hc|]. right. split; [reflexivity|].
        split; [exact Hg|]. split; [now left|]. split; [reflexivity|].
        right; right. exact Hno.
      * split; [exact Hc|]. right. split; [reflexivity|].
        split; [exact Hg|]. destruct (Hnone eq_refl) as [_ Hp].
        split; [now right|].
        split; [intros Hf; elim (inserts_ok_not_failed w _ Hok1 Hf)|].
        right; right. exact Hno.
Qed.

(* ===================================================================== *)
(** ** Results: the whole run *)
(* ===================================================================== *)

Lemma run_inv_quiet (w : World) cs p p' :
  run_inv w cs p -> quiet p p' -> run_inv w cs p'.
Proof.
  intros (Hc & Hg & Hp & Hok) (Qc & Qg & Qp & Qgr).
  repeat split; try congruence. eapply inserts_ok_grows; eassumption.
Qed.

Lemma post_print (line : string) p (Q : outcome unit -> Process -> Prop) :
  Q (Ret tt) (printed p [line]) -> post (print line) p Q.
Proof. auto. Qed.

(** A consistent configuration has a column or a static value. *)
Lemma consistentb_some_input args :
  consistentb args = true ->
  ~ (truthy (province_col args) = false /\ truthy (city_col args) = false /\
     truthy (district_col args) = false /\
     truthy (subdistrict_col args) = false /\
     any [truthy (province args); truthy (city args);
          truthy (district args); truthy (subdistrict args)] = false).
Proof.
  unfold consistentb, active, has_col, has_val, levels, any.
  cbn [existsb col_of value_of].
  intros H (H1 & H2 & H3 & H4 & H5).
  rewrite H1, H2, H3, H4 in H. cbn [orb] in H.
  apply andb_true_iff in H. destruct H as [H _].
  rewrite H5 in H. discriminate.
Qed.

Lemma main_exit (w : World) args cs p :
  run_inv w cs p -> (cs = [] \/ cs = [Open] \/ cs = [Open; Closed]) ->
  fatal_cause w args -> main_outcome w args (Exit 1%Z) p.
Proof.
  intros (Hc & Hg & Hp & _) Hcs Hf. split; [exact Hp|]. right.
  rewrite Hc. auto.
Qed.

Lemma main_run (w : World) args : post (main w args) start (main_outcome w args).
Proof.
  assert (I0 : run_inv w [] start).
  { repeat split. apply inserts_ok_nil. }
  unfold main.
  (* validation *)
  apply post_bind.
  destruct (validate_hierarchy_run args start) as (out & Hv & _ & _).
  eapply post_eq; [exact Hv|].
  assert (I1 : run_inv w [] (printed start out))
    by (eapply run_inv_quiet; [exact I0 | apply quiet_printed]).
  clear Hv I0. revert I1. generalize (printed start out). intros p1 I1.
  destruct (consistentb args) eqn:Hcons; cbn [negb].
  2:{ unfold post, bind, sys_exit; cbn [fst snd].
      eapply main_exit; [exact I1 | now left | now left]. }
  apply post_bind. unfold post at 1, ret; cbn [fst snd].
  (* the fact/destination connection *)
  apply post_bind.
  match goal with
  | |- post ?m p1 ?Q =>
      assert (Hconn : post m p1 (fun o p' =>
                (o = Ret 0 /\ run_inv w [Open] p') \/
                (o = Exit 1%Z /\ run_inv w [] p' /\ fatal_cause w args)))
  end.
  { destruct I1 as (Hc & Hg & Hp & Hok).
    assert (Hopen : run_inv w [Open] (opened p1)).
    { repeat split; cbn; try assumption. now rewrite Hc. }
    destruct (truthy (connection_uri args)) eqn:Huri.
    - eapply post_weaken; [apply connect_to_db_post|].
      intros o p' [[-> ->]|(-> & Hq & Hwhy)].
      + left. rewrite Hc. auto.
      + right. split; [reflexivity|].
        split; [eapply run_inv_quiet; [|exact Hq]; repeat split; assumption|].
        destruct Hwhy as [[Hu _]|Hw]; [congruence|].
        right; right; right; left. exact Hw.
    - destruct (all [truthy (host args); truthy (database args);
                     truthy (user args)]) eqn:Hall; cbn [negb].
      + eapply post_weaken; [apply connect_to_db_post|].
        intros o p' [[-> ->]|(-> & Hq & Hwhy)].
        * left. rewrite Hc. auto.
        * right. split; [reflexivity|].
          split; [eapply run_inv_quiet; [|exact Hq]; repeat split; assumption|].
          destruct Hwhy as [[_ Hi]|Hw]; [discriminate|].
          right; right; right; left. exact Hw.
      + unfold post, bind, print, sys_exit; cbn [fst snd]. right.
        split; [reflexivity|].
        split; [eapply run_inv_quiet; [|apply (quiet_printed p1 [_])];
                repeat split; assumption|].
        right; left. auto. }
  eapply post_weaken; [exact Hconn|]. clear Hconn.
  intros o p2 [[-> I2]|(-> & I2 & Hf)].
  2:{ eapply main_exit; [exact I2 | now left | exact Hf]. }
  clear I1 p1.
  (* extraction *)
  apply post_bind. apply post_print.
  assert (I3 : run_inv w [Open] (printed p2 [("Fetching distinct locations from " ++ fact_table args ++ "...")%string]))
    by (eapply run_inv_quiet; [exact I2 | apply quiet_printed]).
  revert I3. generalize (printed p2 [("Fetching distinct locations from " ++ fact_table args ++ "...")%string]).
  clear I2 p2. intros p3 I3.
  apply post_bind.
  eapply post_weaken; [apply fetch_post|].
  intros o p4 [Hq H].
  assert (I4 : run_inv w [Open] p4) by (eapply run_inv_quiet; eassumption).
  clear I3 Hq p3.
  destruct o as [[df cols]|c].
  2:{ destruct H as [-> [Hnone|Hread]].
      - elim (consistentb_some_input args Hcons Hnone).
      - eapply main_exit; [exact I4 | right; left; reflexivity |].
        do 4 right. left. exact Hread. }
  rename H into Hknown.
  (* resolution *)
  apply post_bind. apply post_print.
  apply post_bind. apply post_print.
  match goal with
  | |- post _ ?q _ =>
      assert (I5 : run_inv w [Open] q)
        by (eapply run_inv_quiet; [exact I4|];
            eapply quiet_trans; apply quiet_printed);
      revert I5; generalize q; clear I4 p4; intros p5 I5
  end.
  apply post_bind.
  eapply post_weaken; [apply lookup_location_ids_post; exact Hknown|].
  intros o p6 [(locs & -> & Hids & Hc6 & Hg6 & Hp6 & Hgr6)|(-> & Hq & Hwhy)].
  2:{ eapply main_exit;
        [eapply run_inv_quiet; [exact I5 | exact Hq]
        | right; left; reflexivity |].
      destruct Hwhy as [Hm|Hc]; [right; right; left; exact Hm|].
      right; right; right; left; exact Hc. }
  assert (I6 : run_inv w [Open; Closed] p6).
  { destruct I5 as (Hc & Hg & Hp & Hok).
    repeat split; try congruence.
    - rewrite Hc6, Hc. reflexivity.
    - eapply inserts_ok_grows; eassumption. }
  clear I5 Hc6 Hg6 Hp6 Hgr6 p5.
  (* the destination table *)
  apply post_bind. apply post_print.
  match goal with
  | |- post _ ?q _ =>
      assert (I7 : run_inv w [Open; Closed] q)
        by (eapply run_inv_quiet; [exact I6 | apply quiet_printed]);
      revert I7; generalize q; clear I6 p6; intros p7 I7
  end.
  apply post_bind.
  eapply post_weaken; [apply create_geo_ref_table_post|].
  intros o p8 (Hc8 & Hgr8 & H8).
  destruct I7 as (Hc7 & Hg7 & Hp7 & Hok7).
  assert (I8 : run_inv w [Open; Closed] p8).
  { destruct H8 as [(_ & Hg & Hp)|(_ & Hg & Hp & _)].
    - repeat split; try congruence.
      + rewrite Hg, Hg7, Hp7. reflexivity.
      + eapply inserts_ok_grows; eassumption.
    - repeat split; try congruence. eapply inserts_ok_grows; eassumption. }
  destruct H8 as [(-> & _)|(-> & _ & _ & Hwhy)].
  2:{ eapply main_exit; [exact I8 | right; right; reflexivity |].
      destruct Hwhy as [He|Hco]; [do 5 right; left; exact He|].
      do 6 right. exact Hco. }
  clear Hc8 Hgr8 Hc7 Hg7 Hp7 Hok7 p7.
  (* the rows *)
  destruct I8 as (Hc8 & Hg8 & Hp8 & Hok8).
  apply post_bind.
  eapply post_weaken; [apply insert_into_geo_ref_post; exact Hok8|].
  intros o p9 (Hc9 & H9).
  destruct H9 as [(-> & Hok9 & H9)|(-> & Hg9 & Hp9 & _ & Hwhy)].
  - apply post_bind.
    unfold post, close, print, main_outcome;
      cbn [fst snd stdout conns sent geo_ref pending].
    split.
    + destruct H9 as [(_ & _ & Hp)|(_ & Hp & _)]; congruence.
    + left. split; [reflexivity|]. rewrite Hc9, Hc8. cbn.
      split; [reflexivity | exact Hok9].
  - split.
    + destruct Hp9 as [Hp|Hp]; congruence.
    + right. split; [reflexivity|]. split; [congruence|].
      split; [right; right; rewrite Hc9, Hc8; reflexivity|].
      destruct Hwhy as [He|[Hco|Hno]].
      * do 5 right; left; exact He.
      * do 6 right; exact Hco.
      * elim Hno. exact Hids.
Qed.

(* ===================================================================== *)
(** ** Results: misses, lookup errors, the writer, the connections *)
(* ===================================================================== *)

Lemma filter_conditions row active c cs :
  filter_of row active = c :: cs ->
  conditions_of row (map key_of active)
  = Some (render c :: map render cs).
Proof. intros H. rewrite conditions_of_levels, H. reflexivity. Qed.

Lemma main_completes (w : World) args :
  ~ fatal_cause w args ->
  post (main w args) start (fun o pf =>
    o = Ret tt /\ conns pf = [Closed; Closed] /\ pending pf = []).
Proof.
  intros Hno. eapply post_weaken; [apply main_run|].
  intros o pf [Hp [(-> & Hc & _)|(_ & _ & _ & Hf)]]; [auto | contradiction].
Qed.

Lemma insert_writes_locations (w : World) conn locations sc args p :
  inserts_ok w (sent p) ->
  post (insert_into_geo_ref w conn locations sc args) p (fun o p' =>
    o = Ret tt ->
    geo_ref p' ++ pending p'
    = geo_ref p ++ pending p ++ map (geo_ref_row args) locations).
Proof.
  intros Hok. eapply post_weaken; [apply insert_into_geo_ref_post; exact Hok|].
  intros o p' [_ [(_ & _ & H)|(-> & _)]] Ho; [|discriminate].
  destruct H as [(-> & -> & ->)|(_ & -> & ->)].
  - cbn [map]. rewrite app_nil_r. reflexivity.
  - rewrite app_nil_r. reflexivity.
Qed.

(** C4: a tuple for which the master returns no row adds one line, the
    warning with the tuple, to the output and nothing to the results, and
    the loop goes on with the next tuple from there; the writer, when it
    returns, has added to geo_ref one row per entry of the results it was
    given and nothing else, so the tuple gets no row; and a run in which
    none of the fatal causes occurs completes (exit status 0) whatever the
    master answers to the lookups. *)
Theorem miss_is_only_a_warning :
  forall (w : World) (args : Args),
    (forall (neon : handle) (active : list Level) (sc : list string)
            (results : list (dict cell)) (row : dict cell)
            (rest : DataFrame) (p : Process),
       filter_of row active <> [] ->
       fetchone w (sent p)
         (lookup_sql_of sc (map render (filter_of row active))) = Ok None ->
       lookup_row w neon (map key_of active) sc results row p
       = (Ret results,
          logged p [warning_no_location row]
            [(neon, (lookup_sql_of sc (map render (filter_of row active)),
                     []))])
       /\ for_each (lookup_row w neon (map key_of active) sc) (row :: rest)
            results p
          = for_each (lookup_row w neon (map key_of active) sc) rest results
              (logged p [warning_no_location row]
                 [(neon, (lookup_sql_of sc (map render (filter_of row active)),
                          []))])) /\
    (forall (conn : handle) (locations : list (dict cell))
            (sc : list string) (p : Process),
       inserts_ok w (sent p) ->
       post (insert_into_geo_ref w conn locations sc args) p (fun o p' =>
         o = Ret tt ->
         geo_ref p' ++ pending p'
         = geo_ref p ++ pending p ++ map (geo_ref_row args) locations)) /\
    (~ fatal_cause w args ->
     post (main w args) start (fun o pf =>
       exit_code o = 0%Z /\ conns pf = [Closed; Closed])).
Proof.
  intros w args. split; [|split].
  - intros neon active sc results row rest p Hne Hf.
    destruct (filter_of row active) as [|c cs] eqn:E; [congruence|].
    pose proof (filter_conditions row active c cs E) as Hc.
    cbn [map] in *.
    pose proof (lookup_row_miss w neon _ sc results row p _ _ Hc Hf) as Hrow.
    split; [exact Hrow|]. apply for_each_cons. exact Hrow.
  - intros conn locations sc p Hok. now apply insert_writes_locations.
  - intros Hno. eapply post_weaken; [apply main_completes; exact Hno|].
    intros o pf (-> & Hc & _). split; [reflexivity | exact Hc].
Qed.

Lemma no_fatal_cause_two_cities : ~ fatal_cause world_two_cities args_city_col.
Proof.
  intros [H|[[H _]|[H|[(x & e & H)|[(h & s & e & H)|[(h & s & e & H)
           |(h & e & H)]]]]]]; discriminate H.
Qed.

Lemma miss_is_only_a_warning_witness :
  exit_code (fst (main world_two_cities args_city_col start)) = 0%Z /\
  conns (snd (main world_two_cities args_city_col start)) = [Closed; Closed] /\
  geo_ref (snd (main world_two_cities args_city_col start))
  = [[Some "3273"; Some "Jawa Barat"; Some "BANDUNG"]] /\
  filter (contains "Warning")
    (stdout (snd (main world_two_cities args_city_col start)))
  = [warning_no_location
       [("city", Some "Jakarta"); ("province", Some "Jawa Barat")]].
Proof.
  pose proof (proj2 (proj2 (miss_is_only_a_warning world_two_cities
                              args_city_col))
                no_fatal_cause_two_cities) as H.
  unfold post in H. destruct H as [H1 H2].
  split; [exact H1|]. split; [exact H2|].
  split; vm_compute; reflexivity.
Defined.

Lemma fetch_read_error (w : World) conn ft (col val : Level -> cell) p e :
  (exists L, truthy (col L) = true \/ truthy (val L) = true) ->
  (forall sql, pd_read_sql w (sent p) sql = Raise e) ->
  exists sql,
    fetch_by_level w conn ft col val p
    = (Exit 1%Z,
       logged p [ ("Error fetching distinct locations: " ++ e)%string;
                  ("SQL query: " ++ sql)%string ]
                [(conn, (sql, []))]).
Proof.
  intros [L HL] Hread. unfold fetch_by_level, fetch_distinct_locations.
  set (given := filter (fun cv : string * cell => truthy (snd cv)) _).
  destruct given as [|g gs] eqn:EG; cbn [map].
  - assert (HA : any [truthy (val Province); truthy (val City);
                      truthy (val District); truthy (val SubDistrict)]
                 = true).
    { destruct HL as [HL|HL].
      - exfalso. subst given. cbn [filter snd] in EG.
        destruct L; rewrite HL in EG;
          try discriminate EG;
          destruct (truthy (col Province)); try discriminate EG;
          destruct (truthy (col City)); try discriminate EG;
          destruct (truthy (col District)); discriminate EG.
      - unfold any; cbn [existsb]. destruct L; rewrite HL;
          rewrite ?orb_true_r; reflexivity. }
    rewrite HA. cbn [negb].
    unfold bind, ret, history, send, print, sys_exit. cbv beta iota.
    rewrite Hread. eexists. unfold logged.
    cbn [stdout conns sent geo_ref pending]. rewrite <- app_assoc.
    reflexivity.
  - unfold bind, ret, history, send, print, sys_exit. cbv beta iota.
    rewrite Hread. eexists. unfold logged.
    cbn [stdout conns sent geo_ref pending]. rewrite <- app_assoc.
    reflexivity.
Qed.

(** C6, as the code has it: an exception from the lookup of one tuple is
    caught; two lines are printed, the exception's text and the literal
    query text (the tuple itself is not printed); the results are unchanged
    and the loop goes on with the next tuple from there.  An exception from
    the query on the fact table during extraction ends the run with status
    1 after printing the exception's text and the query. *)
Theorem lookup_error_is_logged_and_skipped :
  forall (w : World),
    (forall (neon : handle) (active : list Level) (sc : list string)
            (results : list (dict cell)) (row : dict cell)
            (rest : DataFrame) (p : Process) (e : string),
       filter_of row active <> [] ->
       fetchone w (sent p)
         (lookup_sql_of sc (map render (filter_of row active))) = Raise e ->
       lookup_row w neon (map key_of active) sc results row p
       = (Ret results,
          logged p
            (error_lookup_lines e
               (lookup_sql_of sc (map render (filter_of row active))))
            [(neon, (lookup_sql_of sc (map render (filter_of row active)),
                     []))])
       /\ for_each (lookup_row w neon (map key_of active) sc) (row :: rest)
            results p
          = for_each (lookup_row w neon (map key_of active) sc) rest results
              (logged p
                 (error_lookup_lines e
                    (lookup_sql_of sc (map render (filter_of row active))))
                 [(neon, (lookup_sql_of sc (map render (filter_of row active)),
                          []))])) /\
    (forall (conn : handle) (ft : string) (col val : Level -> cell)
            (p : Process) (e : string),
       (exists L, truthy (col L) = true \/ truthy (val L) = true) ->
       (forall sql, pd_read_sql w (sent p) sql = Raise e) ->
       exists sql,
         fetch_by_level w conn ft col val p
         = (Exit 1%Z,
            logged p [ ("Error fetching distinct locations: " ++ e)%string;
                       ("SQL query: " ++ sql)%string ]
                     [(conn, (sql, []))])).
Proof.
  intros w. split.
  - intros neon active sc results row rest p e Hne Hf.
    destruct (filter_of row active) as [|c cs] eqn:E; [congruence|].
    pose proof (filter_conditions row active c cs E) as Hc.
    cbn [map] in *.
    pose proof (lookup_row_error w neon _ sc results row p _ _ e Hc Hf) as Hrow.
    split; [exact Hrow|]. apply for_each_cons. exact Hrow.
  - intros conn ft col val p e Hin Hread.
    now apply fetch_read_error.
Qed.

Lemma lookup_error_is_logged_and_skipped_witness :
  for_each (lookup_row world_master_down 1 ["province"]
              ["objectid"; "provinsi"])
    [row_quote; [("province", Some "Bali")]] [] start
  = for_each (lookup_row world_master_down 1 ["province"]
                ["objectid"; "provinsi"])
      [[("province", Some "Bali")]] []
      (logged start
         (error_lookup_lines "connection lost"
            (lookup_sql_of ["objectid"; "provinsi"]
               ["LOWER(provinsi) = LOWER('O''Brien')"]))
         [(1, (lookup_sql_of ["objectid"; "provinsi"]
                 ["LOWER(provinsi) = LOWER('O''Brien')"], []))]).
Proof.
  refine (proj2 (proj1 (lookup_error_is_logged_and_skipped world_master_down)
            1 [Province] ["objectid"; "provinsi"] [] row_quote
            [[("province", Some "Bali")]] start "connection lost" _ _)).
  - discriminate.
  - reflexivity.
Defined.

(** C6 as stated fails: when the lookup of the tuple with province O'Brien
    raises, the output is the two lines of the error path; no line holds
    the tuple as the warning of the miss path prints it, and none holds
    its value (the query text has the value with its quote doubled). *)
Lemma lookup_error_does_not_print_tuple :
  stdout (snd (lookup_row world_master_down 1 ["province"]
                 ["objectid"; "provinsi"] [] row_quote start))
  = [ "Error looking up location ID: connection lost";
      ("SQL query: " ++ lookup_sql_of ["objectid"; "provinsi"]
                          ["LOWER(provinsi) = LOWER('O''Brien')"])%string ]
  /\ existsb (contains (repr_dict row_quote))
       (stdout (snd (lookup_row world_master_down 1 ["province"]
                       ["objectid"; "provinsi"] [] row_quote start)))
     = false
  /\ existsb (contains "O'Brien")
       (stdout (snd (lookup_row world_master_down 1 ["province"]
                       ["objectid"; "provinsi"] [] row_quote start)))
     = false.
Proof. repeat split; vm_compute; reflexivity. Qed.

Lemma insert_failure_post (w : World) conn locations sc args p :
  inserts_ok w (sent p) ->
  post (insert_into_geo_ref w conn locations sc args) p (fun o p' =>
    (insert_failed_in w (sent p') ->
     o = Exit 1%Z /\ geo_ref p' = geo_ref p /\ pending p' = []) /\
    (geo_ref p' = geo_ref p \/
     geo_ref p' = geo_ref p ++ pending p ++ map (geo_ref_row args) locations)).
Proof.
  intros Hok. eapply post_weaken; [apply insert_into_geo_ref_post; exact Hok|].
  intros o p' [_ [(-> & Hok' & H)|(-> & Hg & _ & Hroll & _)]].
  - split.
    + intros Hf. elim (inserts_ok_not_failed w _ Hok' Hf).
    + destruct H as [(_ & Hg & _)|(_ & _ & Hg)]; auto.
  - split; [|now left]. intros Hf. auto.
Qed.

Lemma main_insert_failure (w : World) args :
  post (main w args) start (fun o pf =>
    insert_failed_in w (sent pf) ->
    o = Exit 1%Z /\ geo_ref pf = [] /\ pending pf = []).
Proof.
  eapply post_weaken; [apply main_run|].
  intros o pf [Hp [(_ & _ & Hok)|(-> & Hg & _)]] Hf.
  - elim (inserts_ok_not_failed w _ Hok Hf).
  - auto.
Qed.

(** C5: if, during the writer, an INSERT is answered with an exception
    (no INSERT having failed before the writer started), the writer ends
    the run with status 1, the committed rows of geo_ref are those from
    before the call and no row is left pending: the rows inserted before
    the failure are rolled back.  In every case the committed rows after
    the writer are either those from before or those plus the whole batch,
    never a part of it.  For the whole run from its start: if any INSERT
    is answered with an exception, the run ends with status 1 and geo_ref
    has no row, committed or pending. *)
Theorem insert_failure_rolls_back :
  forall (w : World) (args : Args),
    (forall (conn : handle) (locations : list (dict cell))
            (sc : list string) (p : Process),
       inserts_ok w (sent p) ->
       post (insert_into_geo_ref w conn locations sc args) p (fun o p' =>
         (insert_failed_in w (sent p') ->
          o = Exit 1%Z /\ geo_ref p' = geo_ref p /\ pending p' = []) /\
         (geo_ref p' = geo_ref p \/
          geo_ref p' = geo_ref p ++ pending p
                       ++ map (geo_ref_row args) locations))) /\
    post (main w args) start (fun o pf =>
      insert_failed_in w (sent pf) ->
      exit_code o = 1%Z /\ geo_ref pf = [] /\ pending pf = []).
Proof.
  intros w args. split.
  - intros conn locations sc p Hok. now apply insert_failure_post.
  - eapply post_weaken; [apply main_insert_failure|].
    intros o pf H Hf. destruct (H Hf) as (-> & Hg & Hp). auto.
Qed.

Lemma insert_failed_example :
  insert_failed_in world_insert_fails
    (sent (snd (main world_insert_fails args_city_col start))).
Proof.
  exists (firstn 5 (sent (snd (main world_insert_fails args_city_col start)))),
    0, (insert_sql_of args_city_col,
         [Some "3171"; Some "Jawa Barat"; Some "JAKARTA"]), [],
    "value too long for type".
  split; [vm_compute; reflexivity|]. split; [discriminate | reflexivity].
Qed.

Lemma insert_failure_rolls_back_witness :
  exit_code (fst (main world_insert_fails args_city_col start)) = 1%Z /\
  geo_ref (snd (main world_insert_fails args_city_col start)) = [] /\
  pending (snd (main world_insert_fails args_city_col start)) = [] /\
  map (fun x => snd (snd x))
    (filter (fun x => negb (Nat.eqb (length (snd (snd x))) 0))
       (sent (snd (main world_insert_fails args_city_col start))))
  = [ [Some "3273"; Some "Jawa Barat"; Some "BANDUNG"];
      [Some "3171"; Some "Jawa Barat"; Some "JAKARTA"] ].
Proof.
  pose proof (proj2 (insert_failure_rolls_back world_insert_fails
                       args_city_col) insert_failed_example) as H.
  destruct H as (H1 & H2 & H3).
  split; [exact H1|]. split; [exact H2|]. split; [exact H3|].
  vm_compute. reflexivity.
Defined.

(** C9, as the code has it: when the run completes, the two connections it
    opened (fact/destination and master) are both closed.  When it ends
    early it ends with status 1 and no [close] is issued on that path: the
    master connection, if it was opened, has been closed by the resolution
    pass, and the fact/destination connection, if it was opened, is still
    open when the process exits. *)
Theorem connections_closed_on_completion :
  forall (w : World) (args : Args),
    post (main w args) start (fun o pf =>
      (o = Ret tt /\ conns pf = [Closed; Closed]) \/
      (o = Exit 1%Z /\
       (conns pf = [] \/ conns pf = [Open] \/ conns pf = [Open; Closed]))).
Proof.
  intros w args. eapply post_weaken; [apply main_run|].
  intros o pf [_ [(-> & Hc & _)|(-> & _ & Hc & _)]]; auto.
Qed.

(** C9 as stated fails: when the query on the fact table raises, the run
    ends with status 1 and the fact/destination connection, opened before,
    has not been closed. *)
Lemma connection_left_open_on_fatal_error :
  exit_code (fst (main world_read_fails args_city_col start)) = 1%Z /\
  conns (snd (main world_read_fails args_city_col start)) = [Open] /\
  stdout (snd (main world_read_fails args_city_col start))
  = [ "Fetching distinct locations from sales...";
      "Error fetching distinct locations: relation does not exist";
      ("SQL query: " ++ nl ++ "        SELECT DISTINCT kota as city" ++ nl
       ++ "        FROM sales" ++ nl
       ++ "         WHERE kota IS NOT NULL")%string ].
Proof. repeat split; vm_compute; reflexivity. Qed.

(* ===================================================================== *)
(** ** Results: the values written to geo_ref *)
(* ===================================================================== *)

Lemma dict_get_set_same {V} (d : dict V) k v :
  dict_get (dict_set d k v) k = Some v.
Proof.
  induction d as [|[k0 v0] d IH]; cbn [dict_set dict_get].
  - rewrite String.eqb_refl. reflexivity.
  - destruct (k0 =? k) eqn:E; cbn [dict_get]; rewrite E; auto.
Qed.

Lemma fill_result_other result row columns : forall i d k,
  ~ In k columns ->
  dict_get (fill_result result row i columns d) k = dict_get d k.
Proof.
  induction columns as [|col rest IH]; intros i d k Hk; [reflexivity|].
  cbn [fill_result]. rewrite IH by (intros H; apply Hk; now right).
  apply dict_get_set_other. apply String.eqb_neq.
  intros ->. apply Hk. now left.
Qed.

(** What the resolver stores for the level at place [j] of [columns]: the
    entry [i + j] of the master's row when the row has one, else the
    tuple's value. *)
Lemma fill_result_at result row columns : forall i d j k,
  NoDup columns -> nth_error columns j = Some k ->
  dict_get (fill_result result row i columns d) k
  = Some (if Nat.ltb (i + j) (length result) then nth (i + j) result None
          else row_get row k).
Proof.
  induction columns as [|col rest IH]; intros i d j k Hnd Hj.
  - destruct j; discriminate.
  - inversion Hnd as [|? ? Hnotin Hnd']; subst. destruct j as [|j].
    + cbn in Hj. injection Hj as ->. cbn [fill_result].
      rewrite fill_result_other by exact Hnotin.
      rewrite dict_get_set_same, Nat.add_0_r. reflexivity.
    + cbn in Hj. cbn [fill_result].
      rewrite (IH (S i) _ j k Hnd' Hj).
      replace (S i + j) with (i + S j) by lia. reflexivity.
Qed.




(* ===================================================================== *)
(** ** Further results: the escaped literal *)
(* ===================================================================== *)

(** X1: the text written for a condition is [LOWER(col) = LOWER('] followed
    by the value with its single quotes doubled and by ['\)]; read as an
    SQL string literal, what follows the opening quote denotes the value
    itself and ends exactly at the quote the script wrote to close it,
    whatever the value contains: a quote in the value cannot end the
    literal early. *)
Theorem escaped_value_stays_inside_literal :
  forall (db_col v rest : string),
    render (db_col, v)
    = (("LOWER(" ++ db_col ++ ") = LOWER('")
       ++ (replace quote1 "''" v ++ "')"))%string
    /\ scan_literal (replace quote1 "''" v ++ "')" ++ rest)%string
       = Some (v, (")" ++ rest)%string).
Proof.
  intros db_col v rest. split.
  - unfold render, condition. cbn [fst snd].
    rewrite !string_app_assoc. reflexivity.
  - change ("')" ++ rest)%string
      with (String quote1 (String ")"%char rest)).
    apply scan_literal_escaped. reflexivity.
Qed.

(* ===================================================================== *)
(** ** Further results: validate_hierarchy *)
(* ===================================================================== *)

(** X2: static values never stand in the way: if a configuration is
    accepted, so is every configuration with the same columns that has a
    static value wherever the first has one (and possibly more). *)
Theorem more_static_values_stay_valid :
  forall (args args' : Args) (p p' : Process),
    (forall L, has_col args' L = has_col args L) ->
    (forall L, has_val args L = true -> has_val args' L = true) ->
    fst (validate_hierarchy args p) = Ret true ->
    fst (validate_hierarchy args' p') = Ret true.
Proof.
  intros args args' p p' Hcol Hval H.
  destruct (validate_hierarchy_run args p) as (out & E & _ & _).
  destruct (validate_hierarchy_run args' p') as (out' & E' & _ & _).
  rewrite E in H. rewrite E'. cbn [fst] in *.
  injection H as H. f_equal.
  apply consistentb_spec in H. apply consistentb_spec.
  destruct H as [[L HL] Hup].
  assert (Hact : forall U, active args U = true -> active args' U = true).
  { intros U. unfold active. rewrite Hcol.
    destruct (has_col args U); [reflexivity|]. cbn [orb]. apply Hval. }
  split.
  - exists L. now apply Hact.
  - intros L' U HC HR. apply Hact. apply (Hup L' U); [|exact HR].
    rewrite <- Hcol. exact HC.
Qed.

Lemma more_static_values_stay_valid_witness :
  fst (validate_hierarchy
         {| connection_uri := None; host := None; port := 5432%Z;
            database := None; user := None; fact_table := "sales";
            province_col := None; city_col := Some "kota";
            district_col := None; subdistrict_col := None;
            province := Some "Jawa Barat"; city := None;
            district := Some "Coblong"; subdistrict := None |} start)
  = Ret true.
Proof.
  refine (more_static_values_stay_valid args_city_col _ start start _ _ _).
  - intros []; reflexivity.
  - intros []; cbn; intros H; try discriminate H; reflexivity.
  - reflexivity.
Defined.

(** X3: a configuration whose columns are exactly the levels down to some
    level is accepted, whatever its static values: a request may stop at
    any level. *)
Theorem columns_down_to_a_level_are_valid :
  forall (args : Args) (K : Level) (p : Process),
    (forall L, has_col args L = Nat.leb (rank L) (rank K)) ->
    fst (validate_hierarchy args p) = Ret true.
Proof.
  intros args K p H.
  destruct (validate_hierarchy_run args p) as (out & E & _ & _).
  rewrite E. cbn [fst]. f_equal. apply consistentb_spec. split.
  - exists Province. unfold active. rewrite H. destruct K; reflexivity.
  - intros L U HC HR. unfold active. rewrite H.
    rewrite H in HC. apply Nat.leb_le in HC.
    replace (Nat.leb (rank U) (rank K)) with true; [reflexivity|].
    symmetry. apply Nat.leb_le. lia.
Qed.

Lemma columns_down_to_a_level_are_valid_witness :
  fst (validate_hierarchy
         {| connection_uri := None; host := None; port := 5432%Z;
            database := None; user := None; fact_table := "sales";
            province_col := Some "prov"; city_col := Some "kota";
            district_col := None; subdistrict_col := None;
            province := None; city := None;
            district := None; subdistrict := None |} start)
  = Ret true.
Proof.
  refine (columns_down_to_a_level_are_valid _ City start _).
  intros []; reflexivity.
Defined.

(* ===================================================================== *)
(** ** Further results: what ends a run before the databases *)
(* ===================================================================== *)

(** X4: a refused configuration ends the run with status 1 before any
    input or output other than the refusal message: no connection has been
    opened, no statement has been sent, whatever the databases would have
    answered. *)
Theorem refused_configuration_ends_before_io :
  forall (w : World) (args : Args),
    fst (validate_hierarchy args start) = Ret false ->
    exists out,
      main w args start = (Exit 1%Z, printed start out) /\
      refusal args out.
Proof.
  intros w args H.
  destruct (validate_hierarchy_run args start) as (out & E & _ & Hbad).
  rewrite E in H. cbn [fst] in H. injection H as H.
  exists out. split; [|exact (Hbad H)].
  unfold main. unfold bind at 1. rewrite E, H. reflexivity.
Qed.

Lemma refused_configuration_ends_before_io_witness :
  exists out,
    main world_all_ok
      {| connection_uri := Some "postgres://fact"; host := None;
         port := 5432%Z; database := None; user := None;
         fact_table := "sales"; province_col := None; city_col := None;
         district_col := Some "kec"; subdistrict_col := None;
         province := None; city := None; district := None;
         subdistrict := None |} start
    = (Exit 1%Z, printed start out) /\
    refusal
      {| connection_uri := Some "postgres://fact"; host := None;
         port := 5432%Z; database := None; user := None;
         fact_table := "sales"; province_col := None; city_col := None;
         district_col := Some "kec"; subdistrict_col := None;
         province := None; city := None; district := None;
         subdistrict := None |} out.
Proof.
  apply refused_configuration_ends_before_io. reflexivity.
Defined.

(** X5: without a connection URI, a run that lacks the host, the database
    or the user ends with status 1 after the message naming the three
    options; no connection is attempted and no statement is sent. *)
Theorem missing_connection_parameters_end_the_run :
  forall (w : World) (args : Args),
    fst (validate_hierarchy args start) = Ret true ->
    truthy (connection_uri args) = false ->
    (truthy (host args) = false \/ truthy (database args) = false \/
     truthy (user args) = false) ->
    main w args start
    = (Exit 1%Z,
       printed start
         ["Error: When not using --connection-uri, you must specify --host, --database, and --user"]).
Proof.
  intros w args H Huri Hmiss.
  destruct (validate_hierarchy_run args start) as (out & E & Hok & _).
  rewrite E in H. cbn [fst] in H. injection H as H.
  rewrite (Hok H), printed_nil in E.
  assert (Hall : all [truthy (host args); truthy (database args);
                      truthy (user args)] = false).
  { unfold all; cbn [forallb].
    destruct Hmiss as [-> | [-> | ->]];
      rewrite ?andb_false_r; reflexivity. }
  unfold main. unfold bind at 1. rewrite E, H. cbn [negb].
  unfold bind at 1. unfold ret at 1. cbv beta iota.
  unfold bind at 1. rewrite Huri, Hall. cbn [negb].
  reflexivity.
Qed.

Lemma missing_connection_parameters_end_the_run_witness :
  main world_all_ok
    {| connection_uri := None; host := Some "db.local"; port := 5432%Z;
       database := None; user := Some "etl"; fact_table := "sales";
       province_col := Some "prov"; city_col := None; district_col := None;
       subdistrict_col := None; province := None; city := None;
       district := None; subdistrict := None |} start
  = (Exit 1%Z,
     printed start
       ["Error: When not using --connection-uri, you must specify --host, --database, and --user"]).
Proof.
  refine (missing_connection_parameters_end_the_run world_all_ok _ _ _ _).
  - reflexivity.
  - reflexivity.
  - right; left; reflexivity.
Defined.

(** X6: with the environment variable of the master URI unset or empty,
    the resolution pass ends the run with status 1 right at its start: it
    prints the connection error of the missing parameters, asks psycopg2
    for nothing, opens no connection and looks up no tuple. *)
Theorem unset_master_uri_ends_resolution :
  forall (w : World) (locations_df : DataFrame) (columns : list string)
         (p : Process),
    truthy (environ_MASTER_DB_URI w) = false ->
    lookup_location_ids w locations_df columns p
    = (Exit 1%Z,
       printed p
         ["Error connecting to database: 'NoneType' object is not subscriptable"]).
Proof.
  intros w df columns p H.
  unfold lookup_location_ids, connect_to_db. rewrite H. reflexivity.
Qed.

Lemma unset_master_uri_ends_resolution_witness :
  lookup_location_ids
    {| environ_MASTER_DB_URI := None; getpass := "secret";
       psycopg2_connect := fun _ => Ok tt;
       pd_read_sql := fun _ _ => Ok [];
       fetchone := fun _ _ => Ok None;
       execute := fun _ _ => Ok tt;
       commit := fun _ => Ok tt |}
    [[("province", Some "Bali")]] ["province"] start
  = (Exit 1%Z,
     printed start
       ["Error connecting to database: 'NoneType' object is not subscriptable"]).
Proof.
  refine (unset_master_uri_ends_resolution _ _ _ start _). reflexivity.
Defined.

(* ===================================================================== *)
(** ** Further results: fetch_distinct_locations *)
(* ===================================================================== *)

Lemma snd_add_static av name v acc :
  snd (add_static av name v acc)
  = snd acc ++ (if (truthy v && negb (mem name av))%bool then [name] else []).
Proof.
  unfold add_static. destruct acc as [df cols].
  destruct (truthy v && negb (mem name av))%bool; cbn [snd];
    [reflexivity | now rewrite app_nil_r].
Qed.

(** The names [columns] holds after the four static blocks. *)
Lemma fetch_columns (col val : Level -> cell) (df0 : DataFrame) :
  snd (add_static
         (map fst (filter (fun cv : string * cell => truthy (snd cv))
            [ ("province", col Province); ("city", col City);
              ("district", col District); ("sub_district", col SubDistrict) ]))
         "sub_district" (val SubDistrict)
         (add_static
            (map fst (filter (fun cv : string * cell => truthy (snd cv))
               [ ("province", col Province); ("city", col City);
                 ("district", col District);
                 ("sub_district", col SubDistrict) ]))
            "district" (val District)
            (add_static
               (map fst (filter (fun cv : string * cell => truthy (snd cv))
                  [ ("province", col Province); ("city", col City);
                    ("district", col District);
                    ("sub_district", col SubDistrict) ]))
               "city" (val City)
               (add_static
                  (map fst (filter (fun cv : string * cell => truthy (snd cv))
                     [ ("province", col Province); ("city", col City);
                       ("district", col District);
                       ("sub_district", col SubDistrict) ]))
                  "province" (val Province)
                  (df0,
                   map fst (filter (fun cv : string * cell => truthy (snd cv))
                     [ ("province", col Province); ("city", col City);
                       ("district", col District);
                       ("sub_district", col SubDistrict) ]))))))
  = map key_of (active_order col val).
Proof.
  rewrite !snd_add_static. cbn [snd filter].
  unfold active_order, levels. cbn [filter].
  destruct (truthy (col Province)), (truthy (col City)),
    (truthy (col District)), (truthy (col SubDistrict)),
    (truthy (val Province)), (truthy (val City)),
    (truthy (val District)), (truthy (val SubDistrict)); reflexivity.
Qed.

Lemma active_order_nodup (col val : Level -> cell) :
  NoDup (map key_of (active_order col val)).
Proof.
  unfold active_order, levels. cbn [filter].
  destruct (truthy (col Province)), (truthy (col City)),
    (truthy (col District)), (truthy (col SubDistrict)),
    (truthy (val Province)), (truthy (val City)),
    (truthy (val District)), (truthy (val SubDistrict));
    cbn [andb negb app map key_of];
    repeat (constructor; [cbn; intuition discriminate|]); constructor.
Qed.

Lemma pair_snd_elim (x : DataFrame * list string) (P : list string -> Prop) :
  P (snd x) -> let (_, columns) := x in P columns.
Proof. destruct x; auto. Qed.

Lemma fetch_columns_post :
  forall (w : World) (conn : handle) (ft : string) (col val : Level -> cell)
         (p : Process),
    post (fetch_by_level w conn ft col val) p (fun o p' =>
      match o with
      | Ret (df, columns) =>
          columns = map key_of (active_order col val) /\ NoDup columns
      | Exit _ => True
      end).
Proof.
  intros w conn ft col val p.
  unfold fetch_by_level, fetch_distinct_locations.
  pose proof (fetch_columns col val) as Hcols.
  set (given := filter (fun cv : string * cell => truthy (snd cv)) _) in *.
  destruct given as [|g gs] eqn:EG; cbn [map] in *.
  - destruct (any _); cbn [negb]; [|exact I].
    unfold post, bind, ret, history, send. cbv beta iota.
    destruct (pd_read_sql w (sent p) _) as [df|e]; [|exact I].
    cbn [fst snd].
    apply (pair_snd_elim _ (fun columns =>
             columns = map key_of (active_order col val) /\ NoDup columns)).
    rewrite Hcols. split; [reflexivity | apply active_order_nodup].
  - unfold post, bind, ret, history, send. cbv beta iota.
    destruct (pd_read_sql w (sent p) _) as [df|e]; [|exact I].
    cbn [fst snd].
    apply (pair_snd_elim _ (fun columns =>
             columns = map key_of (active_order col val) /\ NoDup columns)).
    rewrite Hcols. split; [reflexivity | apply active_order_nodup].
Qed.

(** X7: whenever extraction returns, the active levels it returns are the
    levels with a column, in hierarchy order, followed by the levels that
    have only a static value, in hierarchy order; no level is listed
    twice. *)
Theorem extraction_lists_columns_then_statics :
  forall (w : World) (conn : handle) (ft : string) (col val : Level -> cell)
         (p : Process),
    post (fetch_by_level w conn ft col val) p (fun o p' =>
      match o with
      | Ret (df, columns) =>
          columns = map key_of (active_order col val) /\ NoDup columns
      | Exit _ => True
      end).
Proof. exact fetch_columns_post. Qed.

Lemma add_static_assigns av name v acc :
  mem name av = false -> truthy v = true ->
  Forall (fun r => row_get r name = v) (fst (add_static av name v acc)).
Proof.
  intros Hm Hv. unfold add_static. destruct acc as [df cols].
  rewrite Hm, Hv. cbn [fst andb negb]. unfold df_assign.
  apply Forall_forall. intros r Hr. apply in_map_iff in Hr.
  destruct Hr as (r0 & <- & _). unfold row_get.
  rewrite dict_get_set_same. reflexivity.
Qed.

Lemma add_static_keeps av name v acc k x :
  (name =? k) = false ->
  Forall (fun r => row_get r k = x) (fst acc) ->
  Forall (fun r => row_get r k = x) (fst (add_static av name v acc)).
Proof.
  intros Hk H. unfold add_static. destruct acc as [df cols].
  destruct (truthy v && negb (mem name av))%bool; cbn [fst] in *; [|exact H].
  unfold df_assign. apply Forall_forall. intros r Hr. apply in_map_iff in Hr.
  destruct Hr as (r0 & <- & Hr0). rewrite Forall_forall in H.
  unfold row_get. rewrite dict_get_set_other by exact Hk. now apply H.
Qed.

(** A level without a column is not among the available columns. *)
Lemma column_not_available (col : Level -> cell) L :
  truthy (col L) = false ->
  mem (key_of L)
    (map fst (filter (fun cv : string * cell => truthy (snd cv))
       [ ("province", col Province); ("city", col City);
         ("district", col District); ("sub_district", col SubDistrict) ]))
  = false.
Proof.
  intros H. cbn [filter snd].
  destruct L; rewrite H;
    destruct (truthy (col Province)), (truthy (col City)),
      (truthy (col District)), (truthy (col SubDistrict));
    try discriminate; reflexivity.
Qed.

Lemma pair_fst_elim (x : DataFrame * list string) (P : DataFrame -> Prop) :
  P (fst x) -> let (df, _) := x in P df.
Proof. destruct x; auto. Qed.

(** The four static blocks, seen from one level that has only a static
    value. *)
Lemma static_blocks_fill (col val : Level -> cell) L av acc :
  mem (key_of L) av = false -> truthy (val L) = true ->
  Forall (fun r => row_get r (key_of L) = val L)
    (fst (add_static av "sub_district" (val SubDistrict)
            (add_static av "district" (val District)
               (add_static av "city" (val City)
                  (add_static av "province" (val Province) acc))))).
Proof.
  intros Hm Hv. destruct L; cbn [key_of] in *.
  - do 3 (apply add_static_keeps; [reflexivity|]).
    now apply add_static_assigns.
  - do 2 (apply add_static_keeps; [reflexivity|]).
    now apply add_static_assigns.
  - apply add_static_keeps; [reflexivity|].
    now apply add_static_assigns.
  - now apply add_static_assigns.
Qed.

(** X8: whenever extraction returns, every row of the frame holds, at
    every level that has a static value and no column, that static value:
    the same value on every row, whatever the fact table returned. *)
Theorem static_value_on_every_row :
  forall (w : World) (conn : handle) (ft : string) (col val : Level -> cell)
         (L : Level) (p : Process),
    truthy (col L) = false -> truthy (val L) = true ->
    post (fetch_by_level w conn ft col val) p (fun o p' =>
      match o with
      | Ret (df, columns) =>
          Forall (fun row => row_get row (key_of L) = val L) df
      | Exit _ => True
      end).
Proof.
  intros w conn ft col val L p Hc Hv.
  unfold fetch_by_level, fetch_distinct_locations.
  pose proof (column_not_available col L Hc) as Hm.
  set (given := filter (fun cv : string * cell => truthy (snd cv)) _) in *.
  destruct given as [|g gs] eqn:EG; cbn [map] in *.
  - destruct (any _); cbn [negb]; [|exact I].
    unfold post, bind, ret, history, send. cbv beta iota.
    destruct (pd_read_sql w (sent p) _) as [df|e]; [|exact I].
    cbn [fst snd].
    apply (pair_fst_elim _ (Forall (fun row => row_get row (key_of L) = val L))).
    now apply static_blocks_fill.
  - unfold post, bind, ret, history, send. cbv beta iota.
    destruct (pd_read_sql w (sent p) _) as [df|e]; [|exact I].
    cbn [fst snd].
    apply (pair_fst_elim _ (Forall (fun row => row_get row (key_of L) = val L))).
    now apply static_blocks_fill.
Qed.

Lemma static_value_on_every_row_witness :
  Forall (fun row => row_get row "province" = Some "Jawa Barat")
    [ [("city", Some "Bandung"); ("province", Some "Jawa Barat")];
      [("city", Some "Jakarta"); ("province", Some "Jawa Barat")] ].
Proof.
  exact (static_value_on_every_row world_two_cities 0 "sales"
           (fun L => match L with City => Some "kota" | _ => None end)
           (fun L => match L with Province => Some "Jawa Barat" | _ => None end)
           Province start eq_refl eq_refl).
Defined.

(** X9: after an accepted configuration, extraction always reaches the
    fact table: it sends exactly one statement, without parameters, over
    the connection, and then either returns having printed nothing or ends
    the run with status 1 because the query raised.  The exit of
    [fetch_distinct_locations] for a configuration without any column or
    static value cannot be taken once the validator has accepted. *)
Theorem accepted_configuration_reaches_fact_table :
  forall (w : World) (conn : handle) (args : Args) (p0 p : Process),
    fst (validate_hierarchy args p0) = Ret true ->
    post (fetch_by_level w conn (fact_table args) (col_of args)
            (value_of args)) p
      (fun o p' =>
         exists sql,
           sent p' = sent p ++ [(conn, (sql, []))] /\
           ((exists r df, o = Ret r /\ stdout p' = stdout p /\
                          pd_read_sql w (sent p) sql = Ok df) \/
            (exists e, o = Exit 1%Z /\
                       pd_read_sql w (sent p) sql = Raise e))).
Proof.
  intros w conn args p0 p H.
  destruct (validate_hierarchy_run args p0) as (out & E & _ & _).
  rewrite E in H. cbn [fst] in H. injection H as H.
  pose proof (consistentb_some_input args H) as Hsome.
  unfold fetch_by_level, fetch_distinct_locations. cbn [col_of value_of].
  set (given := filter (fun cv : string * cell => truthy (snd cv)) _) in *.
  assert (Hnil : given = [] ->
            truthy (province_col args) = false /\
            truthy (city_col args) = false /\
            truthy (district_col args) = false /\
            truthy (subdistrict_col args) = false).
  { subst given. cbn [filter snd].
    destruct (truthy (province_col args)), (truthy (city_col args)),
      (truthy (district_col args)), (truthy (subdistrict_col args));
      intros H0; try discriminate; auto. }
  destruct given as [|g gs] eqn:EG; cbn [map].
  - destruct (any [truthy (province args); truthy (city args);
                   truthy (district args); truthy (subdistrict args)])
      eqn:EA; cbn [negb].
    + unfold post, bind, ret, history, send, print, sys_exit.
      cbv beta iota.
      destruct (pd_read_sql w (sent p) _) as [df|e] eqn:ER; cbn [fst snd];
        eexists; (split; [reflexivity|]).
      * left. eexists; exists df. split; [reflexivity|].
        split; [reflexivity | exact ER].
      * right. exists e. split; [reflexivity | exact ER].
    + exfalso. apply Hsome. destruct (Hnil eq_refl) as (?&?&?&?). auto 6.
  - unfold post, bind, ret, history, send, print, sys_exit. cbv beta iota.
    destruct (pd_read_sql w (sent p) _) as [df|e] eqn:ER; cbn [fst snd];
      eexists; (split; [reflexivity|]).
    + left. eexists; exists df. split; [reflexivity|].
      split; [reflexivity | exact ER].
    + right. exists e. split; [reflexivity | exact ER].
Qed.

Lemma accepted_configuration_reaches_fact_table_witness :
  exists sql,
    sent (snd (fetch_by_level world_two_cities 0 (fact_table args_city_col)
                 (col_of args_city_col) (value_of args_city_col) start))
    = sent start ++ [(0, (sql, []))] /\
    ((exists r df,
        fst (fetch_by_level world_two_cities 0 (fact_table args_city_col)
               (col_of args_city_col) (value_of args_city_col) start)
        = Ret r /\
        stdout (snd (fetch_by_level world_two_cities 0
                       (fact_table args_city_col) (col_of args_city_col)
                       (value_of args_city_col) start))
        = stdout start /\
        pd_read_sql world_two_cities (sent start) sql = Ok df) \/
     (exists e,
        fst (fetch_by_level world_two_cities 0 (fact_table args_city_col)
               (col_of args_city_col) (value_of args_city_col) start)
        = Exit 1%Z /\
        pd_read_sql world_two_cities (sent start) sql = Raise e)).
Proof.
  exact (accepted_configuration_reaches_fact_table world_two_cities 0
           args_city_col start start eq_refl).
Defined.

(* ===================================================================== *)
(** ** Further results: the resolution pass *)
(* ===================================================================== *)

Lemma logged_logged p o1 s1 o2 s2 :
  logged (logged p o1 s1) o2 s2 = logged p (o1 ++ o2) (s1 ++ s2).
Proof. unfold logged; cbn. rewrite !app_assoc. reflexivity. Qed.

(** One tuple: at most one statement, and a result only with a statement. *)
Lemma lookup_row_step (w : World) neon (ls : list Level) sc results row p :
  exists added out stmts,
    lookup_row w neon (map key_of ls) sc results row p
    = (Ret (results ++ added), logged p out stmts) /\
    length added <= length stmts /\ length stmts <= 1 /\
    plain_on neon stmts.
Proof.
  destruct (filter_of row ls) as [|c cs] eqn:E.
  - exists [], [], []. split.
    + unfold lookup_row. rewrite conditions_of_levels, E. cbn [map].
      rewrite app_nil_r, logged_nil. reflexivity.
    + repeat split; cbn; auto. constructor.
  - pose proof (filter_conditions row ls c cs E) as Hc.
    destruct (fetchone w (sent p) (lookup_sql_of sc (render c :: map render cs)))
      as [[[|id others]|]|e] eqn:Hf.
    + exists [], [warning_no_location row],
        [(neon, (lookup_sql_of sc (render c :: map render cs), []))].
      split.
      * unfold lookup_row. rewrite Hc.
        unfold bind, history, send, ret, print; cbv beta iota. rewrite Hf.
        rewrite app_nil_r. reflexivity.
      * repeat split; cbn; auto. repeat constructor.
    + eexists [_], [], [_]. split.
      * rewrite (lookup_row_hit _ _ _ _ _ _ _ _ _ _ _ Hc Hf). reflexivity.
      * repeat split; cbn; auto. repeat constructor.
    + exists [], [warning_no_location row],
        [(neon, (lookup_sql_of sc (render c :: map render cs), []))].
      split.
      * rewrite (lookup_row_miss _ _ _ _ _ _ _ _ _ Hc Hf).
        rewrite app_nil_r. reflexivity.
      * repeat split; cbn; auto. repeat constructor.
    + eexists [], _, [_]. split.
      * rewrite (lookup_row_error _ _ _ _ _ _ _ _ _ _ Hc Hf).
        rewrite app_nil_r. reflexivity.
      * repeat split; cbn; auto. repeat constructor.
Qed.

Lemma lookup_rows_bounds :
  forall (w : World) (neon : handle) (ls : list Level) (sc : list string)
         (rows : DataFrame) (results : list (dict cell)) (p : Process),
  exists added out stmts,
    for_each (lookup_row w neon (map key_of ls) sc) rows results p
    = (Ret (results ++ added), logged p out stmts) /\
    length added <= length stmts /\ length stmts <= length rows /\
    plain_on neon stmts.
Proof.
  intros w neon ls sc rows. induction rows as [|row rest IH];
    intros results p.
  - exists [], [], []. split.
    + cbn. rewrite app_nil_r, logged_nil. reflexivity.
    + repeat split; cbn; auto. constructor.
  - destruct (lookup_row_step w neon ls sc results row p)
      as (a1 & o1 & s1 & E1 & Ha1 & Hs1 & Hp1).
    destruct (IH (results ++ a1) (logged p o1 s1))
      as (a2 & o2 & s2 & E2 & Ha2 & Hs2 & Hp2).
    exists (a1 ++ a2), (o1 ++ o2), (s1 ++ s2). split.
    + rewrite (for_each_cons _ _ _ _ _ _ _ E1), E2.
      rewrite logged_logged, app_assoc. reflexivity.
    + rewrite !length_app. cbn [length]. repeat split; try lia.
      apply Forall_app. split; assumption.
Qed.

(** X10: the resolution loop, over any frame and any active levels, always
    runs to its end; it keeps the results it started with and appends to
    them; it sends at most one statement per tuple, all over the master
    connection and without parameters, and appends at most one result per
    statement sent; it touches neither a connection nor geo_ref. *)
Theorem resolution_loop_bounds :
  forall (w : World) (neon : handle) (ls : list Level) (sc : list string)
         (rows : DataFrame) (results : list (dict cell)) (p : Process),
  exists added out stmts,
    for_each (lookup_row w neon (map key_of ls) sc) rows results p
    = (Ret (results ++ added), logged p out stmts) /\
    length added <= length stmts /\ length stmts <= length rows /\
    plain_on neon stmts.
Proof. exact lookup_rows_bounds. Qed.

(** X11: the resolution pass never leaves the master connection open: when
    it returns, the connection it opened is closed and every other
    connection is as before; when it ends the run, it does so with status
    1 and no connection has been added. *)
Theorem master_connection_never_left_open :
  forall (w : World) (locations_df : DataFrame) (ls : list Level)
         (p : Process),
    post (lookup_location_ids w locations_df (map key_of ls)) p (fun o p' =>
      (exists r, o = Ret r /\ conns p' = conns p ++ [Closed]) \/
      (o = Exit 1%Z /\ conns p' = conns p)).
Proof.
  intros w df ls p.
  assert (Hk : Forall known (map key_of ls)).
  { apply Forall_forall. intros c Hc. apply in_map_iff in Hc.
    destruct Hc as (L & <- & _). apply known_key. }
  eapply post_weaken; [apply lookup_location_ids_post; exact Hk|].
  intros o p' [(r & -> & _ & Hc & _)|(-> & (Hc & _) & _)].
  - left. eauto.
  - right. auto.
Qed.

(* ===================================================================== *)
(** ** Further results: the resolved location *)
(* ===================================================================== *)

Lemma dict_set_new_key {V} (d : dict V) k v :
  dict_get d k = None -> map fst (dict_set d k v) = map fst d ++ [k].
Proof.
  induction d as [|[k0 v0] d IH]; intros H; [reflexivity|].
  cbn [dict_get] in H. cbn [dict_set].
  destruct (k0 =? k); [discriminate|].
  cbn [map fst app]. rewrite IH by exact H. reflexivity.
Qed.

Lemma fill_result_keys result row columns : forall i d,
  NoDup columns -> (forall c, In c columns -> dict_get d c = None) ->
  map fst (fill_result result row i columns d) = map fst d ++ columns.
Proof.
  induction columns as [|col rest IH]; intros i d Hnd Hnew.
  - cbn. now rewrite app_nil_r.
  - inversion Hnd as [|? ? Hnotin Hnd']; subst. cbn [fill_result].
    rewrite IH.
    + rewrite dict_set_new_key by (apply Hnew; now left).
      rewrite <- app_assoc. reflexivity.
    + exact Hnd'.
    + intros c Hc. rewrite dict_get_set_other.
      * apply Hnew. now right.
      * apply String.eqb_neq. intros ->. contradiction.
Qed.

Lemma key_of_inj L L' : key_of L = key_of L' -> L = L'.
Proof. destruct L, L'; cbn; intros H; congruence || discriminate H. Qed.

Lemma nodup_keys (ls : list Level) : NoDup ls -> NoDup (map key_of ls).
Proof.
  induction 1 as [|L ls Hnotin _ IH]; cbn [map]; constructor; [|exact IH].
  intros Hin. apply in_map_iff in Hin. destruct Hin as (L' & E & HL').
  apply key_of_inj in E. subst. contradiction.
Qed.

(** X12: for active levels without repetition, the resolved location built
    from a master row has the key [location_id] followed by the active
    levels in their order, one entry each; and a level whose place lies
    beyond the end of the master row gets the tuple's own value (the
    fallback to the input value). *)
Theorem resolved_location_shape :
  forall (ls : list Level) (result : list cell) (row : dict cell)
         (id : cell),
    NoDup ls ->
    map fst (fill_result result row 1 (map key_of ls) [("location_id", id)])
    = "location_id" :: map key_of ls
    /\ (forall j L,
          nth_error ls j = Some L -> length result <= S j ->
          row_get (fill_result result row 1 (map key_of ls)
                     [("location_id", id)]) (key_of L)
          = row_get row (key_of L)).
Proof.
  intros ls result row id Hnd. pose proof (nodup_keys ls Hnd) as Hk. split.
  - rewrite fill_result_keys; [reflexivity | exact Hk |].
    intros c Hc. apply in_map_iff in Hc. destruct Hc as (L & <- & _).
    destruct L; reflexivity.
  - intros j L Hj Hlen. unfold row_get at 1.
    rewrite (fill_result_at result row (map key_of ls) 1 _ j (key_of L) Hk).
    + cbn [Nat.add].
      replace (Nat.ltb (S j) (length result)) with false; [reflexivity|].
      symmetry. apply Nat.ltb_ge. exact Hlen.
    + rewrite nth_error_map, Hj. reflexivity.
Qed.

Lemma resolved_location_shape_witness :
  map fst (fill_result [Some "3273"; Some "BANDUNG"]
             [("city", Some "Bandung"); ("province", Some "Jawa Barat")]
             1 (map key_of [City; Province]) [("location_id", Some "3273")])
  = ["location_id"; "city"; "province"]
  /\ row_get (fill_result [Some "3273"; Some "BANDUNG"]
                [("city", Some "Bandung"); ("province", Some "Jawa Barat")]
                1 (map key_of [City; Province])
                [("location_id", Some "3273")]) "province"
     = Some "Jawa Barat".
Proof.
  pose proof (resolved_location_shape [City; Province]
                [Some "3273"; Some "BANDUNG"]
                [("city", Some "Bandung"); ("province", Some "Jawa Barat")]
                (Some "3273")) as H.
  assert (Hnd : NoDup [City; Province]).
  { repeat constructor; cbn; intuition discriminate. }
  destruct (H Hnd) as [H1 H2]. split; [exact H1|].
  exact (H2 1 Province eq_refl (le_n 2)).
Defined.

(* ===================================================================== *)
(** ** Further results: a run against a table that already has rows *)
(* ===================================================================== *)

Lemma framed_ret {A} (a : A) : framed (ret a).
Proof. intros rows p. reflexivity. Qed.

Lemma framed_sys_exit {A} (c : Z) : framed (@sys_exit A c).
Proof. intros rows p. reflexivity. Qed.

Lemma framed_print line : framed (print line).
Proof. intros rows p. reflexivity. Qed.

Lemma framed_open_conn : framed open_conn.
Proof. intros rows p. reflexivity. Qed.

Lemma framed_close h : framed (close h).
Proof. intros rows p. reflexivity. Qed.

Lemma framed_send h s : framed (send h s).
Proof. intros rows p. reflexivity. Qed.

Lemma framed_history : framed history.
Proof. intros rows p. reflexivity. Qed.

Lemma framed_add_pending values : framed (add_pending values).
Proof. intros rows p. reflexivity. Qed.

Lemma framed_rollback : framed rollback.
Proof. intros rows p. reflexivity. Qed.

Lemma framed_do_commit : framed do_commit.
Proof.
  intros rows p. unfold do_commit, with_rows.
  cbn [fst snd stdout conns sent geo_ref pending].
  rewrite app_assoc. reflexivity.
Qed.

Lemma framed_bind {A B} (m : M A) (f : A -> M B) :
  framed m -> (forall a, framed (f a)) -> framed (bind m f).
Proof.
  intros Hm Hf rows p. unfold bind. rewrite Hm.
  destruct (m p) as [[a|c] p1]; cbn [fst snd]; [apply Hf | reflexivity].
Qed.

Ltac framed_step :=
  lazymatch goal with
  | |- framed (bind _ _) => apply framed_bind; [|intros ?]
  | |- framed (ret _) => apply framed_ret
  | |- framed (sys_exit _) => apply framed_sys_exit
  | |- framed (print _) => apply framed_print
  | |- framed open_conn => apply framed_open_conn
  | |- framed (close _) => apply framed_close
  | |- framed (send _ _) => apply framed_send
  | |- framed history => apply framed_history
  | |- framed (add_pending _) => apply framed_add_pending
  | |- framed rollback => apply framed_rollback
  | |- framed do_commit => apply framed_do_commit
  | |- framed (match ?x with _ => _ end) => destruct x
  end.

Lemma framed_validate_hierarchy args : framed (validate_hierarchy args).
Proof. unfold validate_hierarchy. repeat framed_step. Qed.

Lemma framed_connect_to_db (w : World) uri info :
  framed (connect_to_db w uri info).
Proof. unfold connect_to_db. repeat framed_step. Qed.

Lemma framed_fetch (w : World) conn ft pc cc dc sc pv cv dv sv :
  framed (fetch_distinct_locations w conn ft pc cc dc sc pv cv dv sv).
Proof. unfold fetch_distinct_locations. repeat framed_step. Qed.

Lemma framed_for_each {A B} (body : B -> A -> M B) (xs : list A) :
  (forall acc x, framed (body acc x)) ->
  forall acc, framed (for_each body xs acc).
Proof.
  intros Hb. induction xs as [|x xs IH]; intros acc; cbn [for_each].
  - apply framed_ret.
  - apply framed_bind; [apply Hb | exact IH].
Qed.

Lemma framed_lookup_row (w : World) neon columns sc results row :
  framed (lookup_row w neon columns sc results row).
Proof. unfold lookup_row. repeat framed_step. Qed.

Lemma framed_lookup_location_ids (w : World) df columns :
  framed (lookup_location_ids w df columns).
Proof.
  unfold lookup_location_ids.
  apply framed_bind; [apply framed_connect_to_db | intros neon].
  apply framed_bind; [|intros results; repeat framed_step].
  apply framed_for_each. intros acc x. apply framed_lookup_row.
Qed.

Lemma framed_create_geo_ref_table (w : World) conn args :
  framed (create_geo_ref_table w conn args).
Proof. unfold create_geo_ref_table. repeat framed_step. Qed.

Lemma framed_insert_loop (w : World) conn sql args locs :
  forall values, framed (insert_loop w conn sql args locs values).
Proof.
  induction locs as [|loc rest IH]; intros values; cbn [insert_loop].
  - apply framed_ret.
  - destruct (dict_get loc "location_id"); [|apply framed_ret].
    repeat framed_step. apply IH.
Qed.

Lemma framed_insert_failed sql e values :
  framed (insert_failed sql e values).
Proof. unfold insert_failed. repeat framed_step. Qed.

Lemma framed_insert_into_geo_ref (w : World) conn locs sc args :
  framed (insert_into_geo_ref w conn locs sc args).
Proof.
  unfold insert_into_geo_ref. destruct locs as [|loc rest].
  - apply framed_print.
  - apply framed_bind; [apply framed_insert_loop | intros [[u|e] values]].
    + repeat framed_step. apply framed_insert_failed.
    + apply framed_insert_failed.
Qed.

(** The rows geo_ref already holds are neither read nor dropped by a run:
    with [rows] in the table before, the run ends in the same outcome and
    the same process with [rows] before the run's own. *)
Lemma framed_main (w : World) args : framed (main w args).
Proof.
  unfold main.
  apply framed_bind; [apply framed_validate_hierarchy | intros valid].
  apply framed_bind; [destruct (negb valid); repeat framed_step | intros _].
  apply framed_bind.
  { destruct (truthy (connection_uri args));
      [apply framed_connect_to_db|].
    destruct (negb _); [repeat framed_step | apply framed_connect_to_db]. }
  intros conn.
  apply framed_bind; [apply framed_print | intros _].
  apply framed_bind; [apply framed_fetch | intros [df columns]].
  apply framed_bind; [apply framed_print | intros _].
  apply framed_bind; [apply framed_print | intros _].
  apply framed_bind; [apply framed_lookup_location_ids | intros [locs sc]].
  apply framed_bind; [apply framed_print | intros _].
  apply framed_bind; [apply framed_create_geo_ref_table | intros _].
  apply framed_bind; [apply framed_insert_into_geo_ref | intros _].
  repeat framed_step.
Qed.

Lemma start_with_rows rows : start_with rows = with_rows rows start.
Proof. unfold start_with, with_rows. cbn. rewrite app_nil_r. reflexivity. Qed.

(** A run from a table that holds [rows], by the run from an empty table. *)
Lemma main_from_rows (w : World) args rows :
  main w args (start_with rows)
  = (fst (main w args start), with_rows rows (snd (main w args start))).
Proof. rewrite start_with_rows. apply framed_main. Qed.


(* ===================================================================== *)
(** ** Further results: how a run tells its end *)
(* ===================================================================== *)



































Lemma announces_sys_exit {A} line c : announces line (@sys_exit A c).
Proof. intros p a H. discriminate H. Qed.



(* ===================================================================== *)
(** ** Further results: the destination table and its rows *)
(* ===================================================================== *)

Lemma column_def_insert_column col value default :
  column_def col value default
  = map (fun c => (c ++ " VARCHAR(255)")%string)
        (insert_column col value default).
Proof.
  unfold column_def, insert_column.
  destruct (truthy col || truthy value)%bool; [|reflexivity].
  cbn [map]. rewrite string_app_assoc. reflexivity.
Qed.

(** X13: the writer and the table agree.  Every row the writer sends has
    as many values as the INSERT names columns and as it has placeholders,
    namely one for the identifier and one per active level; and the
    columns the CREATE TABLE statement defines between [location_id] and
    [created_at] are exactly the columns the INSERT names after
    [location_id], in the same order, each as VARCHAR(255). *)
Theorem writer_and_table_agree :
  forall (args : Args) (loc : dict cell),
    length (geo_ref_row args loc) = length (insert_columns_of args)
    /\ length (insert_columns_of args)
       = 1 + length (filter (active args) levels)
    /\ insert_sql_of args
       = (nl ++ "    INSERT INTO geo_ref ("
          ++ join ", " (insert_columns_of args) ++ ")" ++ nl
          ++ "    VALUES ("
          ++ join ", " (repeat "%s" (length (geo_ref_row args loc)))
          ++ ")" ++ nl ++ "    ")%string
    /\ create_table_sql_of args
       = (nl ++ "    CREATE TABLE IF NOT EXISTS geo_ref (" ++ nl
          ++ "        "
          ++ join ", "
               (["location_id VARCHAR(255) NOT NULL"]
                ++ map (fun c => (c ++ " VARCHAR(255)")%string)
                       (tl (insert_columns_of args))
                ++ ["created_at TIMESTAMP DEFAULT CURRENT_TIMESTAMP"])
          ++ nl ++ "    );" ++ nl ++ "    ")%string.
Proof.
  intros args loc.
  assert (Hlen : length (geo_ref_row args loc)
                 = length (insert_columns_of args)).
  { unfold geo_ref_row, level_values, insert_columns_of, insert_value,
      insert_column.
    destruct (truthy (province_col args) || truthy (province args))%bool,
      (truthy (city_col args) || truthy (city args))%bool,
      (truthy (district_col args) || truthy (district args))%bool,
      (truthy (subdistrict_col args) || truthy (subdistrict args))%bool;
      reflexivity. }
  split; [exact Hlen|]. split; [|split].
  - unfold insert_columns_of, insert_column, active, has_col, has_val,
      levels.
    cbn [filter col_of value_of].
    destruct (truthy (province_col args) || truthy (province args))%bool,
      (truthy (city_col args) || truthy (city args))%bool,
      (truthy (district_col args) || truthy (district args))%bool,
      (truthy (subdistrict_col args) || truthy (subdistrict args))%bool;
      reflexivity.
  - unfold insert_sql_of. rewrite Hlen. reflexivity.
  - unfold create_table_sql_of, insert_columns_of. cbn [app tl].
    rewrite !column_def_insert_column, !map_app, <- !app_assoc. reflexivity.
Qed.

(* ===================================================================== *)
(** ** Further results: how a run can end *)
(* ===================================================================== *)


(* ===================================================================== *)
(** ** Further results: the writer's statements and the completed run *)
(* ===================================================================== *)

Lemma insert_loop_ok (w : World) conn sql args locs : forall values p,
  post (insert_loop w conn sql args locs values) p (fun o p' =>
    forall v', o = Ret (Ok tt, v') ->
      sent p' = sent p ++ map (fun loc => (conn, (sql, geo_ref_row args loc)))
                              locs /\
      pending p' = pending p ++ map (geo_ref_row args) locs /\
      geo_ref p' = geo_ref p /\ conns p' = conns p).
Proof.
  induction locs as [|loc rest IH]; intros values p.
  - unfold post; cbn [insert_loop ret fst snd map]. intros v' _.
    rewrite !app_nil_r. auto.
  - cbn [insert_loop].
    destruct (dict_get loc "location_id") as [id|] eqn:Hid.
    + unfold post, bind, history, send. cbv beta iota.
      destruct (execute w (sent p) (sql, id :: level_values args loc))
        as [u|e] eqn:Hex.
      * unfold add_pending. cbv beta iota.
        cbn [stdout conns sent geo_ref pending].
        match goal with
        | |- context [insert_loop w conn sql args rest ?v ?q] =>
            specialize (IH v q)
        end.
        unfold post in IH. cbn [stdout conns sent geo_ref pending] in IH.
        intros v' Hv. destruct (IH v' Hv) as (Hs & Hp & Hg & Hc).
        rewrite Hs, Hp, Hg, Hc, <- !app_assoc. cbn [map app].
        unfold geo_ref_row, row_get. rewrite Hid. auto.
      * cbn [fst snd]. intros v' Hv. discriminate Hv.
    + unfold post; cbn [ret fst snd]. intros v' Hv. discriminate Hv.
Qed.

Lemma insert_success (w : World) conn locations sc args p :
  post (insert_into_geo_ref w conn locations sc args) p (fun o p' =>
    o = Ret tt ->
    sent p' = sent p ++ map (fun loc => (conn, (insert_sql_of args,
                                                geo_ref_row args loc)))
                            locations /\
    geo_ref p' ++ pending p'
    = geo_ref p ++ pending p ++ map (geo_ref_row args) locations /\
    conns p' = conns p /\ (pending p = [] -> pending p' = [])).
Proof.
  unfold insert_into_geo_ref. destruct locations as [|loc rest].
  - unfold post; cbn [print fst snd stdout conns sent geo_ref pending map].
    intros _. rewrite !app_nil_r. auto 6.
  - set (locs := loc :: rest). apply post_bind.
    pose proof (insert_loop_ok w conn (insert_sql_of args) args locs None p)
      as Hloop.
    unfold post in Hloop |- *.
    destruct (insert_loop w conn (insert_sql_of args) args locs None p)
      as [[[[u|e] v']|c] p1]; cbn [fst snd] in *.
    + destruct u. destruct (Hloop v' eq_refl) as (Hs & Hp & Hg & Hc).
      unfold bind, history. cbv beta iota.
      destruct (commit w (sent p1)) as [u|e].
      * unfold do_commit, print. cbv beta iota.
        cbn [fst snd stdout conns sent geo_ref pending]. intros _.
        rewrite Hs, Hg, Hp, Hc, app_nil_r, app_assoc. auto 6.
      * unfold insert_failed, bind, print, rollback, sys_exit.
        cbv beta iota. destruct v'; cbn [fst snd]; intros H; discriminate H.
    + unfold insert_failed, bind, print, rollback, sys_exit.
      cbv beta iota. destruct v'; cbn [fst snd]; intros H; discriminate H.
    + intros H; discriminate H.
Qed.

Lemma lookup_location_ids_count (w : World) df (ls : list Level) p :
  post (lookup_location_ids w df (map key_of ls)) p (fun o p' =>
    forall r sc, o = Ret (r, sc) ->
      length r <= length df /\ geo_ref p' = geo_ref p /\
      pending p' = pending p).
Proof.
  unfold lookup_location_ids. apply post_bind.
  eapply post_weaken; [apply connect_to_db_post|].
  intros o p1 [[-> ->]|(-> & _)].
  2:{ intros r sc H; discriminate H. }
  apply post_bind.
  destruct (lookup_rows_bounds w (length (conns p)) ls
              (select_columns_of (map key_of ls)) df [] (opened p))
    as (added & out & stmts & E & Ha & Hs & _).
  eapply post_eq; [exact E|].
  unfold post, bind, close, ret. cbn [fst snd app].
  intros r sc H. injection H as <- _.
  cbn [stdout conns sent geo_ref pending]. split; [lia | auto].
Qed.

Lemma geo_ref_row_width (args : Args) (loc : dict cell) :
  length (geo_ref_row args loc) = 1 + length (filter (active args) levels).
Proof.
  unfold geo_ref_row, level_values, insert_value, active, has_col, has_val,
    levels.
  cbn [filter col_of value_of].
  destruct (truthy (province_col args) || truthy (province args))%bool,
    (truthy (city_col args) || truthy (city args))%bool,
    (truthy (district_col args) || truthy (district args))%bool,
    (truthy (subdistrict_col args) || truthy (subdistrict args))%bool;
    reflexivity.
Qed.

(** The run up to its end, when it completes. *)
Lemma main_completed (w : World) (args : Args) :
  post (main w args) start (fun o pf =>
    o = Ret tt ->
    exists df cols p4 locs,
      fetch_by_level w 0 (fact_table args) (col_of args) (value_of args)
        (printed (opened start)
           [("Fetching distinct locations from " ++ fact_table args
             ++ "...")%string])
      = (Ret (df, cols), p4) /\
      length locs <= length df /\
      geo_ref pf = map (geo_ref_row args) locs /\ pending pf = []).
Proof.
  unfold main.
  (* validation *)
  apply post_bind.
  destruct (validate_hierarchy_run args start) as (out & Hv & Hok & _).
  eapply post_eq; [exact Hv|].
  destruct (consistentb args) eqn:Hcons; cbn [negb].
  2:{ unfold post, bind, sys_exit; cbn [fst snd]. intros H; discriminate H. }
  rewrite (Hok eq_refl), printed_nil.
  apply post_bind. unfold post at 1, ret; cbn [fst snd].
  (* the fact/destination connection *)
  apply post_bind.
  match goal with
  | |- post ?m start ?Q =>
      assert (Hconn : post m start (fun o p' =>
                (o = Ret 0 /\ p' = opened start) \/ exists c, o = Exit c))
  end.
  { destruct (truthy (connection_uri args)).
    - eapply post_weaken; [apply connect_to_db_post|].
      intros o p' [[-> ->]|(-> & _)]; [left; auto | right; eauto].
    - destruct (all _); cbn [negb].
      + eapply post_weaken; [apply connect_to_db_post|].
        intros o p' [[-> ->]|(-> & _)]; [left; auto | right; eauto].
      + unfold post, bind, print, sys_exit; cbn [fst snd]. right. eauto. }
  eapply post_weaken; [exact Hconn|]. clear Hconn.
  intros o p2 [[-> ->]|[c ->]].
  2:{ intros H; discriminate H. }
  (* extraction *)
  apply post_bind. apply post_print.
  apply post_bind.
  set (p3 := printed (opened start)
               [("Fetching distinct locations from " ++ fact_table args
                 ++ "...")%string]).
  pose proof (fetch_post w 0 (fact_table args) (province_col args)
                (city_col args) (district_col args) (subdistrict_col args)
                (province args) (city args) (district args)
                (subdistrict args) p3) as HF.
  pose proof (fetch_columns_post w 0 (fact_table args) (col_of args)
                (value_of args) p3) as HC.
  unfold post in HF, HC. unfold fetch_by_level in HC.
  cbn [col_of value_of] in HC.
  unfold post at 1.
  destruct (fetch_distinct_locations w 0 (fact_table args) (province_col args)
              (city_col args) (district_col args) (subdistrict_col args)
              (province args) (city args) (district args)
              (subdistrict args) p3) as [[[df cols]|c] p4] eqn:EF;
    cbn [fst snd] in *.
  2:{ intros H; discriminate H. }
  destruct HF as [(_ & Hg4 & Hp4 & _) _]. destruct HC as [-> _].
  cbn [geo_ref pending] in Hg4, Hp4.
  (* resolution *)
  apply post_bind. apply post_print.
  apply post_bind. apply post_print.
  apply post_bind.
  eapply post_weaken; [apply lookup_location_ids_count|].
  intros o p6 H6. destruct o as [[locs sc]|c].
  2:{ intros H; discriminate H. }
  destruct (H6 locs sc eq_refl) as (Hlen & Hg6 & Hp6). clear H6.
  cbn [geo_ref pending printed] in Hg6, Hp6.
  (* the destination table *)
  apply post_bind. apply post_print.
  apply post_bind.
  eapply post_weaken; [apply create_geo_ref_table_post|].
  intros o p8 (_ & _ & [(-> & Hg8 & Hp8)|(-> & _)]).
  2:{ intros H; discriminate H. }
  cbn [geo_ref pending printed] in Hg8, Hp8.
  (* the rows *)
  apply post_bind.
  eapply post_weaken; [apply insert_success|].
  intros o p9 H9. destruct o as [[]|c].
  2:{ intros H; discriminate H. }
  destruct (H9 eq_refl) as (_ & Hrows & _ & Hp9). clear H9.
  specialize (Hp9 Hp8).
  apply post_bind.
  unfold post, close, print; cbn [fst snd stdout conns sent geo_ref pending].
  intros _.
  exists df, (map key_of (active_order (col_of args) (value_of args))),
    p4, locs.
  split; [exact EF|]. split; [exact Hlen|].
  rewrite Hg8, Hp8, Hg6, Hp6, Hg4, Hp4 in Hrows. cbn [app] in Hrows.
  rewrite Hp9, app_nil_r in Hrows. auto.
Qed.

(** X15: when the writer returns, the statements it has sent are, in the
    order of the resolved locations it was given, one INSERT per location
    carrying that location's row, and nothing else; it has touched no
    connection.  (For an empty list it sends nothing.) *)
Theorem writer_sends_one_insert_per_location :
  forall (w : World) (conn : handle) (locations : list (dict cell))
         (sc : list string) (args : Args) (p : Process),
    post (insert_into_geo_ref w conn locations sc args) p (fun o p' =>
      o = Ret tt ->
      sent p' = sent p ++ map (fun loc => (conn, (insert_sql_of args,
                                                  geo_ref_row args loc)))
                              locations /\
      conns p' = conns p).
Proof.
  intros w conn locations sc args p.
  eapply post_weaken; [apply insert_success|].
  intros o p' H Ho. destruct (H Ho) as (Hs & _ & Hc & _). auto.
Qed.

Lemma writer_sends_one_insert_per_location_witness :
  sent (snd (insert_into_geo_ref world_all_ok 0
               [ [("location_id", Some "3273"); ("city", Some "BANDUNG")];
                 [("location_id", Some "3171"); ("city", Some "JAKARTA")] ]
               ["objectid"; "kota_kabupaten"; "provinsi"] args_city_col
               start))
  = [ (0, (insert_sql_of args_city_col,
           [Some "3273"; Some "Jawa Barat"; Some "BANDUNG"]));
      (0, (insert_sql_of args_city_col,
           [Some "3171"; Some "Jawa Barat"; Some "JAKARTA"])) ].
Proof.
  exact (proj1 (writer_sends_one_insert_per_location world_all_ok 0
           [ [("location_id", Some "3273"); ("city", Some "BANDUNG")];
             [("location_id", Some "3171"); ("city", Some "JAKARTA")] ]
           ["objectid"; "kota_kabupaten"; "provinsi"] args_city_col start
           eq_refl)).
Defined.

(** X16: when a run completes, whatever rows geo_ref held before it, the
    table holds those rows followed by the rows of the run: at most one
    per tuple that extraction returned, each made of the identifier and
    one value per active level; nothing is left pending.  In particular a
    run whose extraction returns no tuple completes without adding a
    row. *)
Theorem completed_run_writes_at_most_one_row_per_tuple :
  forall (w : World) (args : Args) (rows : list (list cell)) (pf : Process),
    main w args (start_with rows) = (Ret tt, pf) ->
    exists df cols p4 new,
      fetch_by_level w 0 (fact_table args) (col_of args) (value_of args)
        (printed (opened (start_with rows))
           [("Fetching distinct locations from " ++ fact_table args
             ++ "...")%string])
      = (Ret (df, cols), p4) /\
      geo_ref pf = rows ++ new /\
      length new <= length df /\
      Forall (fun r => length r = 1 + length (filter (active args) levels))
             new /\
      pending pf = [].
Proof.
  intros w args rows pf H. rewrite main_from_rows in H.
  pose proof (main_completed w args) as Hrun. unfold post in Hrun.
  destruct (main w args start) as [o pf0]. cbn [fst snd] in *.
  injection H as -> <-.
  destruct (Hrun eq_refl) as (df & cols & p4 & locs & EF & Hlen & Hg & Hp).
  exists df, cols, (with_rows rows p4), (map (geo_ref_row args) locs).
  split; [|split; [|split; [|split]]].
  - assert (E : printed (opened (start_with rows))
                  [("Fetching distinct locations from " ++ fact_table args
                    ++ "...")%string]
                = with_rows rows
                    (printed (opened start)
                       [("Fetching distinct locations from "
                         ++ fact_table args ++ "...")%string])).
    { unfold printed, opened, with_rows, start_with, start.
      cbn [stdout conns sent geo_ref pending]. rewrite app_nil_r.
      reflexivity. }
    rewrite E. unfold fetch_by_level in *. rewrite framed_fetch, EF.
    reflexivity.
  - cbn [with_rows geo_ref]. rewrite Hg. reflexivity.
  - rewrite length_map. exact Hlen.
  - apply Forall_forall. intros r Hr. apply in_map_iff in Hr.
    destruct Hr as (loc & <- & _). apply geo_ref_row_width.
  - exact Hp.
Qed.

Lemma completed_run_writes_at_most_one_row_per_tuple_witness :
  exists df cols p4 new,
    fetch_by_level world_two_cities 0 (fact_table args_city_col)
      (col_of args_city_col) (value_of args_city_col)
      (printed (opened (start_with
                          [ [Some "1101"; Some "Aceh"; Some "SIMEULUE"];
                            [Some "1102"; Some "Aceh"; Some "ACEH SINGKIL"] ]))
         [("Fetching distinct locations from " ++ fact_table args_city_col
           ++ "...")%string])
    = (Ret (df, cols), p4) /\
    geo_ref (snd (main world_two_cities args_city_col
                    (start_with
                       [ [Some "1101"; Some "Aceh"; Some "SIMEULUE"];
                         [Some "1102"; Some "Aceh"; Some "ACEH SINGKIL"] ])))
    = [ [Some "1101"; Some "Aceh"; Some "SIMEULUE"];
        [Some "1102"; Some "Aceh"; Some "ACEH SINGKIL"] ] ++ new /\
    length new <= length df /\
    Forall (fun r => length r
                     = 1 + length (filter (active args_city_col) levels))
           new /\
    pending (snd (main world_two_cities args_city_col
                    (start_with
                       [ [Some "1101"; Some "Aceh"; Some "SIMEULUE"];
                         [Some "1102"; Some "Aceh"; Some "ACEH SINGKIL"] ])))
    = [].
Proof.
  apply completed_run_writes_at_most_one_row_per_tuple.
  vm_compute. reflexivity.
Defined.

(* ===================================================================== *)
(** ** Further results: the level a refusal names *)
(* ===================================================================== *)

Lemma in_levels (L : Level) : In L levels.
Proof. destruct L; cbn; tauto. Qed.

Lemma coarsest_pairb_spec args L U :
  coarsest_pairb args L U = true -> coarsest_pair args L U.
Proof.
  unfold coarsest_pairb, coarsest_pair.
  rewrite !andb_true_iff, !forallb_forall, negb_true_iff, Nat.ltb_lt.
  intros ((((HU & Hup) & HL) & Hlt) & Hlow).
  split; [exact HU|]. split; [|split; [exact HL|split; [exact Hlt|]]].
  - intros U' Hr. specialize (Hup U' (in_levels U')).
    apply Nat.ltb_lt in Hr. rewrite Hr in Hup. exact Hup.
  - intros L' HC Hr. specialize (Hlow L' (in_levels L')).
    apply Nat.ltb_lt in Hr. rewrite HC, Hr in Hlow.
    cbn [andb negb orb] in Hlow. now apply Nat.leb_le.
Qed.

(** Try every pair of a column level and a level above it. *)
Ltac find_coarsest :=
  let go L U :=
    (exists L, U;
     unfold coarsest_pairb, active, has_col, has_val, levels;
     cbn [forallb col_of value_of rank];
     repeat match goal with
            | H : truthy ?x = _ |- context [truthy ?x] => rewrite H
            end;
     split; reflexivity) in
  first [ go City Province
        | go District Province | go District City
        | go SubDistrict Province | go SubDistrict City
        | go SubDistrict District ].

Lemma validate_refusal_precise args p :
  consistentb args = false -> existsb (active args) levels = true ->
  exists L U,
    validate_hierarchy args p = (Ret false, printed p [msg_missing_upper L U])
    /\ coarsest_pairb args L U = true.
Proof.
  unfold validate_hierarchy, has_column, has_value, consistentb,
    active, has_col, has_val, levels.
  cbn [existsb forallb col_of value_of].
  split_flags args;
    unfold bind, ret, print; simpl; intros H1 H2;
    try discriminate H1; try discriminate H2;
    find_coarsest.
Qed.

(** X17: when a configuration with some active level is refused, the one
    line printed names the most significant level that has neither a
    column nor a static value, and, as the column at fault, the most
    significant column level below it. *)
Theorem refusal_names_coarsest_missing_level :
  forall (args : Args) (p : Process),
    fst (validate_hierarchy args p) = Ret false ->
    (exists L, active args L = true) ->
    exists L U,
      snd (validate_hierarchy args p) = printed p [msg_missing_upper L U] /\
      coarsest_pair args L U.
Proof.
  intros args p H [L0 HL0].
  destruct (validate_hierarchy_run args p) as (out & E & _ & _).
  rewrite E in H. cbn [fst] in H. injection H as H.
  assert (Hex : existsb (active args) levels = true).
  { apply existsb_exists. exists L0. split; [apply in_levels | exact HL0]. }
  destruct (validate_refusal_precise args p H Hex) as (L & U & E' & Hb).
  exists L, U. rewrite E'. split; [reflexivity|].
  now apply coarsest_pairb_spec.
Qed.

Lemma refusal_names_coarsest_missing_level_witness :
  exists L U,
    snd (validate_hierarchy
           {| connection_uri := None; host := None; port := 5432%Z;
              database := None; user := None; fact_table := "sales";
              province_col := Some "prov"; city_col := None;
              district_col := Some "kec"; subdistrict_col := Some "kel";
              province := None; city := None; district := None;
              subdistrict := None |} start)
    = printed start [msg_missing_upper L U] /\
    coarsest_pair
      {| connection_uri := None; host := None; port := 5432%Z;
         database := None; user := None; fact_table := "sales";
         province_col := Some "prov"; city_col := None;
         district_col := Some "kec"; subdistrict_col := Some "kel";
         province := None; city := None; district := None;
         subdistrict := None |} L U.
Proof.
  apply refusal_names_coarsest_missing_level.
  - reflexivity.
  - exists Province. reflexivity.
Defined.
